(** * Makefile.js: the build, check and release tasks of the project

    A shallow embedding of [Makefile.js] and the properties of its tasks:
    the file sets, the rule-file validator, the performance gate, the
    changelog generator and the release sequence.

    Conventions of the model.
    - A JavaScript string is a [string]; a character is one code unit below
      256.  The String methods the build file calls ([indexOf],
      [lastIndexOf], [substring], [split], [trim], [replace], [join]) are
      written out in module [JS].
    - A JavaScript number is a rational, or [Infinity] (a positive number
      divided by zero).  The rounding of double arithmetic is the field
      [round] of the world and is left unspecified.
    - The build file is a script over ShellJS: its effects are the file
      tree, the working directory, the external commands it starts and the
      lines it prints.  They are the fields of [world]; a task is a
      function from a world to an outcome and a world.
    - An external command is opaque: its exit status and its output are a
      function of its command line, the field [shell]; what it does to the
      file tree is outside the model.  The clock ([dateformat]) and the
      processors ([os.cpus]) are fields of the world as well. *)

From Stdlib Require Import ZArith QArith Lqa String Ascii List Lia Sorting.Sorted Sorting.Permutation.
From stdpp Require Import base gmap strings list.
Import ListNotations.

(** ** JavaScript strings *)

Module JS.

(** Code units that the regular expression class [\s] and [trim] treat as
    white space: tab, line feed, vertical tab, form feed, carriage return,
    space and no-break space. *)
Definition is_space (c : ascii) : bool :=
  let n := nat_of_ascii c in
  ((9 <=? n) && (n <=? 13)) || (n =? 32) || (n =? 160).

Definition is_newline (c : ascii) : bool := nat_of_ascii c =? 10.

(** Line terminators: the characters that [.] of a regular expression
    does not match. *)
Definition is_line_terminator (c : ascii) : bool :=
  (nat_of_ascii c =? 10) || (nat_of_ascii c =? 13).

Fixpoint indexOf_from (needle s : string) (i : Z) : Z :=
  if String.prefix needle s then i
  else match s with
       | EmptyString => (-1)%Z
       | String _ s' => indexOf_from needle s' (i + 1)%Z
       end.

(** [s.indexOf(needle)]: the first position at which [needle] occurs in
    [s], or -1. *)
Definition indexOf (s needle : string) : Z := indexOf_from needle s 0%Z.

Fixpoint lastIndexOf_from (needle s : string) (i : Z) : Z :=
  match s with
  | EmptyString => if String.prefix needle EmptyString then i else (-1)%Z
  | String _ s' =>
      let r := lastIndexOf_from needle s' (i + 1)%Z in
      if (r =? -1)%Z then (if String.prefix needle s then i else (-1)%Z) else r
  end.

(** [s.lastIndexOf(needle)]: the last position at which [needle] occurs
    in [s], or -1. *)
Definition lastIndexOf (s needle : string) : Z := lastIndexOf_from needle s 0%Z.

Fixpoint skip (n : nat) (s : string) : string :=
  match n, s with
  | O, _ => s
  | S n', String _ s' => skip n' s'
  | S _, EmptyString => EmptyString
  end.

(** [s.substring(start)]: a negative start counts as 0, a start beyond
    the end gives the empty string. *)
Definition substring (s : string) (start : Z) : string := skip (Z.to_nat start) s.

(** [s.split(re)] for a regular expression [re] that matches exactly one
    character of the class [sep]; the result is never empty. *)
Fixpoint split (sep : ascii -> bool) (s : string) : list string :=
  match s with
  | EmptyString => [EmptyString]
  | String c s' =>
      if sep c then EmptyString :: split sep s'
      else match split sep s' with
           | h :: t => String c h :: t
           | [] => [String c EmptyString]
           end
  end.

Fixpoint trimStart (s : string) : string :=
  match s with
  | String c s' => if is_space c then trimStart s' else s
  | EmptyString => EmptyString
  end.

Fixpoint trimEnd (s : string) : string :=
  match s with
  | EmptyString => EmptyString
  | String c s' =>
      match trimEnd s' with
      | EmptyString => if is_space c then EmptyString else String c EmptyString
      | r => String c r
      end
  end.

Definition trim (s : string) : string := trimEnd (trimStart s).

(** [a.join(sep)] *)
Definition join (sep : string) (a : list string) : string := String.concat sep a.

(** [a.slice(start)]: a negative start counts from the end. *)
Definition slice {A} (a : list A) (start : Z) : list A :=
  let n := Z.of_nat (List.length a) in
  let k := if (start <? 0)%Z then Z.max (n + start) 0 else Z.min start n in
  drop (Z.to_nat k) a.

(** [s.replace(pat, by)] for a string pattern: the first occurrence only. *)
Fixpoint replace (pat by_ s : string) : string :=
  if String.prefix pat s then by_ +:+ skip (String.length pat) s
  else match s with
       | EmptyString => EmptyString
       | String c s' => String c (replace pat by_ s')
       end.

(** [s.replace(/.md\)/g, ".html)")]: every match, left to right, of one
    character that is no line terminator followed by [md)].  [pending]
    counts the characters of the current match still to be dropped. *)
Fixpoint replace_md_from (pending : nat) (s : string) : string :=
  match s with
  | EmptyString => EmptyString
  | String c s' =>
      match pending with
      | S k => replace_md_from k s'
      | O =>
          if negb (is_line_terminator c) && String.prefix "md)" s'
          then ".html)" +:+ replace_md_from 3 s'
          else String c (replace_md_from 0 s')
      end
  end.

Definition replace_md_links (s : string) : string := replace_md_from 0 s.

(** What string concatenation makes of an array element that may be
    missing. *)
Definition to_string (x : option string) : string :=
  match x with Some s => s | None => "undefined" end.

End JS.

(** ** The extension predicate *)

(** [fileType(extension)] is the predicate handed to [filter]. *)
Definition fileType (extension : string) : string -> bool :=
  fun filename =>
    String.eqb (JS.substring filename (JS.lastIndexOf filename "." + 1)) extension.

(** ** Numbers, printed lines and the world *)

(** A JavaScript number as the build file meets it. *)
Inductive number :=
| Fin (q : Q)
| Infinity.

(** [a > b] on numbers. *)
Definition gt (a b : number) : bool :=
  match a, b with
  | Fin x, Fin y => negb (Qle_bool x y)
  | Infinity, Fin _ => true
  | _, Infinity => false
  end.

(** An argument of a format string. *)
Inductive arg :=
| Str (s : string)
| Num (n : number).

(** What a run of the build file does that can be seen from outside. *)
Inductive event :=
| Run (cmd : string)                          (* an external command was started *)
| Echo (fmt : string) (args : list arg)       (* [echo]: a line on standard output *)
| ConsoleError (fmt : string) (args : list arg). (* [console.error] *)

(** An entry of the file tree. *)
Inductive node :=
| File (text : string)
| Dir.

Record world := World {
  files : gmap string node;          (* the file tree, by path *)
  cwd : string;                      (* the working directory *)
  confRules : gmap string Z;         (* [require("./conf/eslint.json").rules]; only the keys are read *)
  cpus : list Z;                     (* [os.cpus()], the clock speed of each *)
  shell : string -> Z * string;      (* exit status and output of an external command *)
  today : option string -> string;   (* [dateformat(new Date(), mask)] *)
  round : Q -> Q;                    (* rounding to the nearest double *)
  out : list event                   (* commands started and lines printed so far *)
}.

Definition set_files (f : gmap string node -> gmap string node) (w : world) : world :=
  World (f (files w)) (cwd w) (confRules w) (cpus w) (shell w) (today w) (round w) (out w).

Definition set_cwd (d : string) (w : world) : world :=
  World (files w) d (confRules w) (cpus w) (shell w) (today w) (round w) (out w).

Definition emit (evs : list event) (w : world) : world :=
  World (files w) (cwd w) (confRules w) (cpus w) (shell w) (today w) (round w) (out w ++ evs).

Definition log (e : event) : world -> world := emit [e].

(** ** Tasks as state transformers that may stop the process *)

Inductive outcome (A : Type) :=
| Done (a : A)          (* the call returned *)
| Exit (code : Z)       (* the process exited *)
| Throw (e : string).   (* an exception was thrown and not caught *)

Arguments Done {A} a.
Arguments Exit {A} code.
Arguments Throw {A} e.

Definition M (A : Type) : Type := world -> outcome A * world.

Definition ret {A} (a : A) : M A := fun w => (Done a, w).

Definition bind {A B} (m : M A) (k : A -> M B) : M B :=
  fun w =>
    match m w with
    | (Done a, w') => k a w'
    | (Exit c, w') => (Exit c, w')
    | (Throw e, w') => (Throw e, w')
    end.

Notation "x <- m ;; k" := (bind m (fun x => k))
  (at level 100, m at next level, right associativity).
Notation "m ;; k" := (bind m (fun _ => k))
  (at level 100, right associativity).

Definition read {A} (f : world -> A) : M A := fun w => (Done (f w), w).
Definition modify (f : world -> world) : M unit := fun w => (Done tt, f w).

(** [exit(code)] *)
Definition exit {A} (code : Z) : M A := fun w => (Exit code, w).

(** [list.forEach(body)] *)
Fixpoint forEach {A} (l : list A) (body : A -> M unit) : M unit :=
  match l with
  | [] => ret tt
  | x :: l' => body x ;; forEach l' body
  end.

Definition when (b : bool) (m : M unit) : M unit := if b then m else ret tt.

(** Whether an outcome is a failure of the process. *)
Definition failed {A} (o : outcome A) : bool :=
  match o with Done _ => false | _ => true end.

(** ** The libraries the build file calls *)

(** Node's [path] module. *)
Module path.

Definition ends_with (suffix s : string) : bool :=
  String.prefix (String.rev suffix) (String.rev s).

(** [path.basename(p, ext)]: what follows the last slash of [p], without
    a trailing [ext]. *)
Definition basename (p ext : string) : string :=
  let f := JS.substring p (JS.lastIndexOf p "/" + 1) in
  if ends_with ext f
  then String.substring 0 (String.length f - String.length ext) f
  else f.

End path.

Module console.

(** [console.error(fmt, args...)] *)
Definition error (fmt : string) (args : list arg) : M unit :=
  modify (log (ConsoleError fmt args)).

End console.

(** ShellJS in make mode.  Paths are keys of the file tree: a path is
    looked up as it is written, but for a leading [./] and trailing
    slashes, which are dropped. *)
Module shelljs.

Fixpoint strip_slashes (s : string) : string :=
  match s with
  | EmptyString => EmptyString
  | String c s' =>
      match strip_slashes s' with
      | EmptyString => if Ascii.eqb c "/" then EmptyString else String c EmptyString
      | r => String c r
      end
  end.

Definition key (p : string) : string :=
  strip_slashes (if String.prefix "./" p then JS.skip 2 p else p).

(** The paths strictly below directory [d]. *)
Definition below (d : string) (p : string) : bool :=
  String.prefix (key d +:+ "/") p.

(** An error of a ShellJS command: make mode sets [config.fatal], the
    process exits. *)
Definition fatal {A} : M A := exit 1.

(** Modelled from the spec: the Command Executor, which is ShellJS's
    [exec] and not part of the sources.  The command is started and runs
    to its end; a non-zero exit status is fatal to the whole chain of
    tasks, and the process exits with status 1; otherwise the output of
    the command is returned. *)
Definition exec (cmd : string) : M string :=
  fun w =>
    let w' := log (Run cmd) w in
    if (fst (shell w cmd) =? 0)%Z then (Done (snd (shell w cmd)), w')
    else (Exit 1, w').

(** [exec(cmd, options, callback)]: the callback runs when the command
    has completed. *)
Definition exec_then {A} (cmd : string) (callback : M A) : M A :=
  exec cmd ;; callback.

(** [echo(fmt, args...)] *)
Definition echo (fmt : string) (args : list arg) : M unit :=
  modify (log (Echo fmt args)).

(** [test("-f", p)] and [test("-d", p)] *)
Definition test (flag p : string) : M bool :=
  read (fun w =>
    match files w !! key p with
    | Some (File _) => String.eqb flag "-f"
    | Some Dir => String.eqb flag "-d"
    | None => false
    end).

(** [find(d)]: [d] itself, then every path below it, in the order in
    which the tree enumerates them.  The path is taken to exist: on a
    path that does not, ShellJS ends the process. *)
Definition listing (d : string) (w : world) : list string :=
  d :: List.filter (below d) (fst <$> map_to_list (files w)).

Definition find (d : string) : M (list string) := read (listing d).

Definition contents (fs : gmap string node) (p : string) : option string :=
  match fs !! key p with
  | Some (File text) => Some text
  | _ => None
  end.

Fixpoint read_all (fs : gmap string node) (ps : list string) : option (list string) :=
  match ps with
  | [] => Some []
  | p :: ps' =>
      match contents fs p, read_all fs ps' with
      | Some t, Some ts => Some (t :: ts)
      | _, _ => None
      end
  end.

(** [cat(p1, ..., pn)]: each file followed by a newline, the last
    newline dropped. *)
Definition cat (ps : list string) : M string :=
  fun w =>
    match read_all (files w) ps with
    | Some ts => (Done (JS.join (String (ascii_of_nat 10) EmptyString) ts), w)
    | None => fatal w
    end.

(** [text.to(p)]: the file is created or overwritten.  The directory of
    [p] is taken to exist: when it does not, ShellJS ends the process. *)
Definition to (text p : string) : M unit :=
  fun w =>
    match files w !! key p with
    | Some Dir => fatal w
    | _ => (Done tt, set_files (insert (key p) (File text)) w)
    end.

(** [text.toEnd(p)]: the text is appended, the file created if needed. *)
Definition toEnd (text p : string) : M unit :=
  fun w =>
    match files w !! key p with
    | Some Dir => fatal w
    | Some (File old) => (Done tt, set_files (insert (key p) (File (old +:+ text))) w)
    | None => (Done tt, set_files (insert (key p) (File text)) w)
    end.

(** [rm(p)]: a file. *)
Definition rm (p : string) : M unit :=
  fun w =>
    match files w !! key p with
    | Some (File _) => (Done tt, set_files (delete (key p)) w)
    | _ => fatal w
    end.

(** [rm("-r", p)]: a file, or a directory with all that is below it. *)
Definition rm_r (p : string) : M unit :=
  fun w =>
    match files w !! key p with
    | Some _ =>
        (Done tt,
         set_files (fun fs => filter (fun kv => negb (below p kv.1) = true) (delete (key p) fs)) w)
    | None => fatal w
    end.

(** [mv(a, b)] of a file to a path that is free. *)
Definition mv (a b : string) : M unit :=
  fun w =>
    match files w !! key a, files w !! key b with
    | Some (File text), None =>
        (Done tt, set_files (fun fs => <[key b := File text]> (delete (key a) fs)) w)
    | _, _ => fatal w
    end.

(** [mkdir(p)] *)
Definition mkdir (p : string) : M unit :=
  fun w =>
    match files w !! key p with
    | Some _ => fatal w
    | None => (Done tt, set_files (insert (key p) Dir) w)
    end.

(** One entry copied from below [src] to the same place below [dst];
    without [force] an entry that exists is kept. *)
Definition copy_entry (force : bool) (src dst : string) (fs : gmap string node)
    (kv : string * node) : gmap string node :=
  let target := key dst +:+ JS.skip (String.length (key src)) kv.1 in
  match fs !! target with
  | Some _ => if force then <[target := kv.2]> fs else fs
  | None => <[target := kv.2]> fs
  end.

(** [cp("-r", src + "/*", dst)], and [cp("-rf", ...)] when [force]:
    everything below [src] is copied below [dst], which has to exist. *)
Definition cp_r (force : bool) (src dst : string) : M unit :=
  fun w =>
    match files w !! key dst with
    | Some Dir =>
        let entries := List.filter (fun kv => below src kv.1) (map_to_list (files w)) in
        (Done tt, set_files (fun fs => fold_left (copy_entry force src dst) entries fs) w)
    | _ => fatal w
    end.

(** [pwd()] and [cd(d)] *)
Definition pwd : M string := read cwd.
Definition cd (d : string) : M unit := modify (set_cwd d).

End shelljs.

(** [shelljs-nodecli]: a command line tool of the project's dependencies,
    run through the Command Executor. *)
Module nodeCLI.

Definition exec (name : string) (args : list string) : M string :=
  shelljs.exec (JS.join " " (name :: args)).

End nodeCLI.

(** [dateformat(new Date(), mask)] *)
Definition dateformat (mask : option string) : M string :=
  read (fun w => today w mask).

(** ** Makefile.js *)

Definition nl : string := String (ascii_of_nat 10) EmptyString.
Definition quote : string := String (ascii_of_nat 34) EmptyString.

(** *** Settings *)

Definition PERF_MULTIPLIER : Q := 7500000.

(** *** Data *)

Definition NODE : string := "node ".
Definition NODE_MODULES : string := "./node_modules/".
Definition TEMP_DIR : string := "./tmp/".
Definition BUILD_DIR : string := "./build/".
Definition MOCHA : string := NODE_MODULES +:+ "mocha/bin/_mocha ".
Definition ESLINT : string := NODE +:+ " bin/eslint.js ".

(** [find(dir).filter(fileType(extension))] *)
Definition fileSet (dir extension : string) : M (list string) :=
  found <- shelljs.find dir ;;
  ret (List.filter (fileType extension) found).

(** The three file sets are resolved once, when the build file is loaded. *)
Record settings := Settings {
  JS_FILES : string;
  JSON_FILES : string;
  TEST_FILES : string
}.

Definition load : M settings :=
  js <- fileSet "lib/" "js" ;;
  json <- fileSet "conf/" "json" ;;
  tests <- fileSet "tests/lib/" "js" ;;
  ret (Settings (JS.join " " js) (JS.join " " json +:+ " .eslintrc") (JS.join " " tests)).

(** *** Helpers *)

Definition generateRulesIndex (basedir : string) : M unit :=
  let output := "module.exports = function() {" +:+ nl in
  let output := output +:+ "    var rules = Object.create(null);" +:+ nl in
  ruleFiles <- fileSet (basedir +:+ "rules/") "js" ;;
  let output :=
    fold_left (fun output filename =>
      let basename := path.basename filename ".js" in
      output +:+ "    rules[" +:+ quote +:+ basename +:+ quote +:+ "] = require("
             +:+ quote +:+ "./rules/" +:+ basename +:+ quote +:+ ");" +:+ nl)
      ruleFiles output in
  let output := output +:+ nl +:+ "    return rules;" +:+ nl +:+ "};" in
  shelljs.to output (basedir +:+ "load-rules.js").

(** *** Tasks *)

Definition target_lint (G : settings) : M unit :=
  shelljs.echo "Validating JSON Files" [] ;;
  nodeCLI.exec "jsonlint" ["-q -c"; JSON_FILES G] ;;
  shelljs.echo "Validating JavaScript files" [] ;;
  shelljs.exec (ESLINT +:+ JS_FILES G) ;;
  shelljs.echo "Validating JavaScript test files" [] ;;
  shelljs.exec (ESLINT +:+ TEST_FILES G) ;;
  ret tt.

(** The body of the loop of [target.checkRuleFiles] for one rule file; the
    counter [errors] of the enclosing function is passed in and out. *)
Definition checkRuleFile (rulesIndexText : string) (confRules : gmap string Z)
    (filename : string) (errors : nat) : M nat :=
  let basename := path.basename filename ".js" in
  (* check for docs *)
  hasDocs <- shelljs.test "-f" ("docs/rules/" +:+ basename +:+ ".md") ;;
  errors <-
    (if negb hasDocs then
       console.error "Missing documentation for rule %s" [Str basename] ;;
       ret (S errors)
     else
       (* check for entry in docs index *)
       if (JS.indexOf rulesIndexText ("(" +:+ basename +:+ ".md)") =? -1)%Z then
         console.error "Missing link to documentation for rule %s in index" [Str basename] ;;
         ret (S errors)
       else ret errors) ;;
  (* check for default configuration *)
  errors <-
    (if negb (bool_decide (is_Some (confRules !! basename))) then
       console.error "Missing default setting for %s in eslint.json" [Str basename] ;;
       ret (S errors)
     else ret errors) ;;
  (* check for tests *)
  hasTests <- shelljs.test "-f" ("tests/lib/rules/" +:+ basename +:+ ".js") ;;
  errors <-
    (if negb hasTests then
       console.error "Missing tests for rule %s" [Str basename] ;;
       ret (S errors)
     else ret errors) ;;
  ret errors.

(** [ruleFiles.forEach(...)] with the counter threaded through. *)
Fixpoint checkRuleFiles_loop (rulesIndexText : string) (confRules : gmap string Z)
    (ruleFiles : list string) (errors : nat) : M nat :=
  match ruleFiles with
  | [] => ret errors
  | filename :: rest =>
      errors <- checkRuleFile rulesIndexText confRules filename errors ;;
      checkRuleFiles_loop rulesIndexText confRules rest errors
  end.

Definition target_checkRuleFiles : M unit :=
  shelljs.echo "Validating rules" [] ;;
  ruleFiles <- fileSet "lib/rules/" "js" ;;
  rulesIndexText <- shelljs.cat ["docs/rules/README.md"] ;;
  confRules <- read confRules ;;
  errors <- checkRuleFiles_loop rulesIndexText confRules ruleFiles 0 ;;
  if negb (errors =? 0) then exit 1 else ret tt.

Definition target_browserify : M unit :=
  (* 1. create temp and build directory *)
  hasTemp <- shelljs.test "-d" TEMP_DIR ;;
  when (negb hasTemp) (shelljs.mkdir TEMP_DIR) ;;
  hasBuild <- shelljs.test "-d" BUILD_DIR ;;
  when (negb hasBuild) (shelljs.mkdir BUILD_DIR) ;;
  (* 2. copy files into temp directory *)
  shelljs.cp_r false "lib" TEMP_DIR ;;
  (* 3. delete the load-rules.js file *)
  shelljs.rm (TEMP_DIR +:+ "load-rules.js") ;;
  (* 4. create new load-rule.js with hardcoded requires *)
  generateRulesIndex TEMP_DIR ;;
  (* 5. browserify the temp directory *)
  nodeCLI.exec "browserify" [TEMP_DIR +:+ "eslint.js"; "-o"; BUILD_DIR +:+ "eslint.js"; "-s eslint"] ;;
  (* 6. remove temp directory *)
  shelljs.rm_r TEMP_DIR.

Definition target_test (G : settings) : M unit :=
  target_lint G ;;
  target_checkRuleFiles ;;
  nodeCLI.exec "istanbul" ["cover"; MOCHA; "-- -c"; TEST_FILES G] ;;
  nodeCLI.exec "istanbul" ["check-coverage"; "--statement 99 --branch 98 --function 99 --lines 99"] ;;
  target_browserify ;;
  nodeCLI.exec "mocha-phantomjs" ["-R dot"; "tests/tests.htm"] ;;
  ret tt.

Definition target_all (G : settings) : M unit := target_test G.

Definition target_docs : M unit :=
  shelljs.echo "Generating documentation" [] ;;
  nodeCLI.exec "jsdoc" ["-d jsdoc lib"] ;;
  shelljs.echo "Documentation has been output to /jsdoc" [].

Definition site_header : string :=
  "---" +:+ nl +:+ "title: ESLint" +:+ nl +:+ "layout: doc" +:+ nl +:+ "---" +:+ nl
  +:+ "<!-- Note: No pull requests accepted for this file. See README.md in the root directory for details. -->"
  +:+ nl.

Definition target_gensite : M unit :=
  shelljs.echo "Generating eslint.org" [] ;;
  let docsDir := "../eslint.github.io/docs" in
  currentDir <- shelljs.pwd ;;
  shelljs.rm_r docsDir ;;
  shelljs.mkdir docsDir ;;
  shelljs.cp_r true "docs" docsDir ;;
  found <- shelljs.find docsDir ;;
  forEach found (fun filename =>
    isFile <- shelljs.test "-f" filename ;;
    when isFile (
      text <- shelljs.cat [filename] ;;
      let text := site_header +:+ text in
      shelljs.to (JS.replace "README.html" "index.html" (JS.replace_md_links text))
                 (JS.replace "README.md" "index.md" filename))) ;;
  shelljs.cd docsDir ;;
  shelljs.exec "git add -A ." ;;
  stamp <- dateformat None ;;
  shelljs.exec ("git commit -m " +:+ quote +:+ "Autogenerated new docs at " +:+ stamp +:+ quote) ;;
  shelljs.exec "git fetch origin && git rebase origin/master" ;;
  shelljs.exec "git push origin master" ;;
  shelljs.cd currentDir.

(** The function handed to [logs.filter] in [target.changelog]. *)
Definition logFilter (line : string) : bool :=
  (JS.indexOf line "Merge pull request" =? -1)%Z && (JS.indexOf line "Merge branch" =? -1)%Z.

Definition target_changelog : M unit :=
  (* get most recent two tags *)
  tagsOutput <- shelljs.exec "git tag" ;;
  let tags := JS.split JS.is_space (JS.trim tagsOutput) in
  let rangeTags := JS.slice tags (Z.of_nat (List.length tags) - 2) in
  timestamp <- dateformat (Some "mmmm d, yyyy") ;;
  (* output header *)
  shelljs.to (JS.to_string (rangeTags !! 1%nat) +:+ " - " +:+ timestamp +:+ nl) "CHANGELOG.tmp" ;;
  (* get log statements *)
  logOutput <- shelljs.exec ("git log --pretty=format:" +:+ quote +:+ "* %s (%an)" +:+ quote
                             +:+ " " +:+ JS.join ".." rangeTags) ;;
  let logs := JS.split JS.is_newline logOutput in
  let logs := List.filter logFilter logs in
  let logs := logs ++ [EmptyString] in (* to create empty lines *)
  let logs := EmptyString :: logs in
  (* output log statements *)
  shelljs.toEnd (JS.join nl logs) "CHANGELOG.tmp" ;;
  (* switch-o change-o *)
  text <- shelljs.cat ["CHANGELOG.tmp"; "CHANGELOG.md"] ;;
  shelljs.to text "CHANGELOG.md.tmp" ;;
  shelljs.rm "CHANGELOG.tmp" ;;
  shelljs.rm "CHANGELOG.md" ;;
  shelljs.mv "CHANGELOG.md.tmp" "CHANGELOG.md" ;;
  (* add into commit *)
  shelljs.exec "git add CHANGELOG.md" ;;
  shelljs.exec "git commit --amend --no-edit" ;;
  ret tt.

(** [(diff[0] * 1e9 + diff[1]) / 1000000] for a reading
    [diff = [seconds, nanoseconds]] of [process.hrtime(start)], each
    operation rounded. *)
Definition milliseconds (round : Q -> Q) (diff : Z * Z) : Q :=
  (round (round (round (inject_Z (fst diff) * 1000000000) + inject_Z (snd diff)) / 1000000))%Q.

(** [PERF_MULTIPLIER / cpuSpeed] *)
Definition perf_limit (round : Q -> Q) (cpuSpeed : Z) : number :=
  if (cpuSpeed =? 0)%Z then Infinity else Fin (round (PERF_MULTIPLIER / inject_Z cpuSpeed)%Q).

(** The comparator of [results.sort]: [a - b].  The difference of two
    doubles has the sign of their exact difference, so it is not rounded
    here. *)
Definition compareNumbers (a b : Q) : Q := (a - b)%Q.

(** [results.sort(compare)], as the stable insertion sort: an element moves
    left past those that compare greater than it. *)
Fixpoint sort_insert (compare : Q -> Q -> Q) (x : Q) (sorted : list Q) : list Q :=
  match sorted with
  | [] => [x]
  | y :: rest =>
      if negb (Qle_bool (compare y x) 0) then x :: y :: rest
      else y :: sort_insert compare x rest
  end.

Definition sort (compare : Q -> Q -> Q) (a : list Q) : list Q :=
  fold_left (fun sorted x => sort_insert compare x sorted) a [].

(** [results[1] > max]; a missing element is [undefined], which is greater
    than nothing. *)
Definition exceeds (x : option Q) (max : number) : bool :=
  match x with
  | Some q => gt (Fin q) max
  | None => false
  end.

(** [target.perf]; [diff1], [diff2] and [diff3] are what
    [process.hrtime(start)] reads in the three callbacks. *)
Definition target_perf (diff1 diff2 diff3 : Z * Z) : M unit :=
  processors <- read cpus ;;
  match processors with
  | [] => fun w => (Throw "TypeError: Cannot read property 'speed' of undefined", w)
  | cpuSpeed :: _ =>
      round <- read round ;;
      let results := [] in
      let max := perf_limit round cpuSpeed in
      let cmd := ESLINT +:+ "./tests/performance/jshint.js" in
      shelljs.echo "CPU Speed is %d with multiplier %d"
        [Num (Fin (inject_Z cpuSpeed)); Num (Fin PERF_MULTIPLIER)] ;;
      shelljs.exec_then cmd (
        let actual := milliseconds round diff1 in
        let results := results ++ [actual] in
        shelljs.echo "Performance Run #1:  %dms (limit: %dms)" [Num (Fin actual); Num max] ;;
        (* Run 2 *)
        shelljs.exec_then cmd (
          let actual := milliseconds round diff2 in
          let results := results ++ [actual] in
          shelljs.echo "Performance Run #2:  %dms (limit: %dms)" [Num (Fin actual); Num max] ;;
          (* Run 3 *)
          shelljs.exec_then cmd (
            let actual := milliseconds round diff3 in
            let results := results ++ [actual] in
            shelljs.echo "Performance Run #3:  %dms (limit: %dms)" [Num (Fin actual); Num max] ;;
            let results := sort compareNumbers results in
            if exceeds (results !! 1%nat) max then
              shelljs.echo "Performance budget exceeded: %dms (limit: %dms)" [Num (Fin actual); Num max] ;;
              exit 1
            else
              shelljs.echo "Performance budget ok:  %dms (limit: %dms)" [Num (Fin actual); Num max])))
  end.

(** [release(type)]: creates a release version tag and pushes to origin. *)
Definition release (G : settings) (type : string) : M unit :=
  target_test G ;;
  shelljs.exec ("npm version " +:+ type) ;;
  target_changelog ;;
  shelljs.exec "git push origin master --tags" ;;
  shelljs.exec "npm publish" ;;
  target_gensite.

Definition target_patch (G : settings) : M unit := release G "patch".
Definition target_minor (G : settings) : M unit := release G "minor".
Definition target_major (G : settings) : M unit := release G "major".

(** * Vocabulary of the properties *)

(** ** Text *)

Fixpoint suffixes (s : string) : list string :=
  s :: match s with
       | EmptyString => []
       | String _ s' => suffixes s'
       end.

(** [phrase] occurs somewhere in [s]. *)
Definition mentions (phrase s : string) : bool :=
  existsb (String.prefix phrase) (suffixes s).

Fixpoint has_char (c : ascii) (s : string) : bool :=
  match s with
  | EmptyString => false
  | String c' s' => Ascii.eqb c c' || has_char c s'
  end.

(** A line of the commit log that carries one of the two merge phrases. *)
Definition is_merge_line (line : string) : bool :=
  mentions "Merge pull request" line || mentions "Merge branch" line.

(** A text given by its lines, each ended by a newline. *)
Definition unlines (lines : list string) : string :=
  fold_right (fun line text => line +:+ nl +:+ text) EmptyString lines.

(** The text of the file at [p], if [p] is a file. *)
Definition file_text (w : world) (p : string) : option string :=
  shelljs.contents (files w) p.

Definition is_file (w : world) (p : string) : bool :=
  match files w !! shelljs.key p with
  | Some (File _) => true
  | _ => false
  end.

(** ** The rule-file validator *)

(** The four conditions on a rule, by its base name. *)
Definition has_doc (w : world) (rule : string) : bool :=
  is_file w ("docs/rules/" +:+ rule +:+ ".md").

Definition has_link (index rule : string) : bool :=
  mentions ("(" +:+ rule +:+ ".md)") index.

Definition has_setting (w : world) (rule : string) : bool :=
  bool_decide (is_Some (confRules w !! rule)).

Definition has_tests (w : world) (rule : string) : bool :=
  is_file w ("tests/lib/rules/" +:+ rule +:+ ".js").

(** How many conditions a rule misses; the link in the index is only asked
    for when the documentation exists. *)
Definition missing_conditions (w : world) (index rule : string) : nat :=
  ((if has_doc w rule then (if has_link index rule then 0 else 1) else 1)
   + (if has_setting w rule then 0 else 1)
   + (if has_tests w rule then 0 else 1))%nat.

(** The error lines for one rule. *)
Definition rule_report (w : world) (index rule : string) : list event :=
  (if has_doc w rule then
     if has_link index rule then []
     else [ConsoleError "Missing link to documentation for rule %s in index" [Str rule]]
   else [ConsoleError "Missing documentation for rule %s" [Str rule]])
  ++ (if has_setting w rule then []
      else [ConsoleError "Missing default setting for %s in eslint.json" [Str rule]])
  ++ (if has_tests w rule then []
      else [ConsoleError "Missing tests for rule %s" [Str rule]]).

(** The rules of a world: the base names of the rule files, in the order
    of the file set. *)
Definition rules_of (w : world) : list string :=
  (fun filename => path.basename filename ".js")
    <$> List.filter (fileType "js") (shelljs.listing "lib/rules/" w).

(** ** The performance gate *)

(** [m] is a median of the three samples: it is one of them, at least two
    are not above it and at least two are not below it. *)
Definition is_median (m a b c : Q) : Prop :=
  In m [a; b; c]
  /\ (2 <= List.length (List.filter (fun x => Qle_bool x m) [a; b; c]))%nat
  /\ (2 <= List.length (List.filter (fun x => Qle_bool m x) [a; b; c]))%nat.

(** [m] is above the limit. *)
Definition above (m : Q) (limit : number) : Prop :=
  match limit with
  | Fin x => (x < m)%Q
  | Infinity => False
  end.

(** ** The release sequence *)

Inductive stage :=
| ValidateAndTest
| BumpVersion
| UpdateChangelog
| PushTags
| PublishPackage
| RepublishSite.

Definition stages : list stage :=
  [ValidateAndTest; BumpVersion; UpdateChangelog; PushTags; PublishPackage; RepublishSite].

(** The statements of [release], each under the name of its stage. *)
Definition release_steps (G : settings) (type : string) : list (stage * M unit) :=
  [ (ValidateAndTest, target_test G);
    (BumpVersion, shelljs.exec ("npm version " +:+ type) ;; ret tt);
    (UpdateChangelog, target_changelog);
    (PushTags, shelljs.exec "git push origin master --tags" ;; ret tt);
    (PublishPackage, shelljs.exec "npm publish" ;; ret tt);
    (RepublishSite, target_gensite) ].

(** A sequence of steps run in order until one does not return: the
    stages entered, and where the run ends. *)
Fixpoint run_steps (steps : list (stage * M unit)) (w : world)
    : list stage * (outcome unit * world) :=
  match steps with
  | [] => ([], (Done tt, w))
  | (s, m) :: rest =>
      match m w with
      | (Done _, w') => let r := run_steps rest w' in (s :: fst r, snd r)
      | (Exit c, w') => ([s], (Exit c, w'))
      | (Throw e, w') => ([s], (Throw e, w'))
      end
  end.

(** The command of a stage, for the three stages that are one command
    of [release]. *)
Definition release_command (type : string) (s : stage) : option string :=
  match s with
  | BumpVersion => Some ("npm version " +:+ type)
  | PushTags => Some "git push origin master --tags"
  | PublishPackage => Some "npm publish"
  | _ => None
  end.

(** An event that is the command of no stage. *)
Definition no_release_command (type : string) (e : event) : Prop :=
  forall s cmd, release_command type s = Some cmd -> e <> Run cmd.

(** What a stage may emit: its command and nothing else when it is one
    command, and otherwise anything but the commands of the stages. *)
Definition stage_event (type : string) (s : stage) (e : event) : Prop :=
  match release_command type s with
  | Some cmd => e = Run cmd
  | None => no_release_command type e
  end.

(** A command of the version control client or of the package registry
    client. *)
Definition is_vcs_or_registry (cmd : string) : bool :=
  String.prefix "git " cmd || String.prefix "npm " cmd.

(** Events that are no such command. *)
Definition harmless (e : event) : Prop :=
  match e with
  | Run cmd => is_vcs_or_registry cmd = false
  | _ => True
  end.

(** Every event of a run of [m], from any world, satisfies [P]. *)
Definition only_emits {A} (P : event -> Prop) (m : M A) : Prop :=
  forall w, exists evs, out (snd (m w)) = out w ++ evs /\ Forall P evs.

(** The events of a run from [w]: what [w'] has that [w] had not. *)
Definition events_since (w w' : world) : list event :=
  drop (List.length (out w)) (out w').

(** ** The changelog *)

(** The command that lists the commits after tag [older] up to tag
    [newer]. *)
Definition log_command (older newer : string) : string :=
  "git log --pretty=format:" +:+ quote +:+ "* %s (%an)" +:+ quote +:+ " " +:+ older +:+ ".." +:+ newer.

(** A block of the changelog: the header line of a tag and a date, an
    empty line, the entries, an empty line. *)
Definition changelog_block (tag timestamp : string) (entries : list string) : string :=
  unlines ((tag +:+ " - " +:+ timestamp) :: EmptyString :: entries ++ [EmptyString]).

(** ** The commits behind the log *)

(** A commit as the log shows it: its subject, the name of its author,
    and the number of its parents.  A merge commit has two parents or
    more, whatever its subject. *)
Record commit := Commit {
  subject : string;
  author : string;
  parents : nat
}.

Definition is_merge_commit (c : commit) : bool := (2 <=? parents c)%nat.

(** The line of a commit under the format [* %s (%an)] of the log
    command, and the output of the log for a list of commits: a line
    each, a newline between two. *)
Definition log_line (c : commit) : string :=
  "* " +:+ subject c +:+ " (" +:+ author c +:+ ")".

Definition log_output (commits : list commit) : string :=
  JS.join nl (log_line <$> commits).

(** * A small project *)

(** A project with two rules, each with its documentation, its link in the
    index, its default setting and its tests; one file of [lib/] is
    named [js]. *)
Definition example_files : gmap string node :=
  list_to_map [
    ("lib", Dir); ("lib/eslint.js", File "e"); ("lib/load-rules.js", File "l");
    ("lib/js", File "j"); ("lib/rules", Dir);
    ("lib/rules/no-alert.js", File "r1"); ("lib/rules/quotes.js", File "r2");
    ("docs", Dir); ("docs/README.md", File "see [rules](rules/README.md)");
    ("docs/rules", Dir);
    ("docs/rules/README.md", File ("* [no-alert](no-alert.md)" +:+ nl +:+ "* [quotes](quotes.md)"));
    ("docs/rules/no-alert.md", File "d1"); ("docs/rules/quotes.md", File "d2");
    ("tests", Dir); ("tests/lib", Dir); ("tests/lib/rules", Dir);
    ("tests/lib/rules/no-alert.js", File "t1"); ("tests/lib/rules/quotes.js", File "t2");
    ("conf", Dir); ("conf/eslint.json", File "{}");
    ("CHANGELOG.md", File ("v1.0.0 - January 1, 2014" +:+ nl +:+ nl +:+ "* 1.0.0 (N)" +:+ nl));
    ("../eslint.github.io/docs", Dir); ("../eslint.github.io/docs/old.md", File "old")
  ].

Definition example_log_command : string :=
  "git log --pretty=format:" +:+ quote +:+ "* %s (%an)" +:+ quote +:+ " v1.0.0..v1.1.0".

(** Two tags; between them one merge commit and two other commits.  Every
    command succeeds. *)
Definition example_shell (cmd : string) : Z * string :=
  if String.eqb cmd "git tag" then (0%Z, "v1.0.0" +:+ nl +:+ "v1.1.0" +:+ nl)
  else if String.eqb cmd example_log_command then
    (0%Z, "* 1.1.0 (N)" +:+ nl +:+ "* Merge pull request #1 from x/y (N)" +:+ nl +:+ "* Fix: thing (M)")
  else (0%Z, EmptyString).

Definition example_today (mask : option string) : string :=
  match mask with
  | Some _ => "February 12, 2014"
  | None => "Wed Feb 12 2014 10:00:00"
  end.

(** One processor at 50000 MHz, so that the limit of the performance gate
    is 150 ms; rounding is exact. *)
Definition example_world : world :=
  World example_files "/home/eslint"
    (list_to_map [("no-alert", 2%Z); ("quotes", 2%Z)])
    [50000%Z] example_shell example_today Qred [].

(** One merge commit, of a remote-tracking branch, and two ordinary
    commits, one of which mentions the merging of branches in its
    subject. *)
Definition mixed_log : list commit :=
  [ Commit "Fix: Merge branch names are escaped" "M" 1;
    Commit "Merge remote-tracking branch 'origin/master'" "N" 2;
    Commit "Docs: typo" "M" 1 ].

Definition mixed_log_shell (cmd : string) : Z * string :=
  if String.eqb cmd "git tag" then (0%Z, "v1.0.0" +:+ nl +:+ "v1.1.0" +:+ nl)
  else if String.eqb cmd example_log_command then (0%Z, log_output mixed_log)
  else (0%Z, EmptyString).

(** The small project with these three commits between its two tags. *)
Definition mixed_log_world : world :=
  World example_files "/home/eslint"
    (list_to_map [("no-alert", 2%Z); ("quotes", 2%Z)])
    [50000%Z] mixed_log_shell example_today Qred [].

(** The same project without the documentation of rule [quotes]. *)
Definition undocumented_world : world :=
  set_files (delete "docs/rules/quotes.md") example_world.

Definition example_settings : settings :=
  Settings "lib/eslint.js" "conf/eslint.json .eslintrc" "tests/lib/rules/quotes.js".

(** * Vocabulary of further properties *)

(** How many of the durations are above the limit. *)
Definition runs_over (limit : number) (durations : list Q) : nat :=
  List.length (List.filter (fun a => exceeds (Some a) limit) durations).

(** A run of [m] leaves the reading [f] of the world as it was. *)
Definition preserves {A X} (f : world -> X) (m : M A) : Prop :=
  forall w, f (snd (m w)) = f w.

(** When [m] returns, the world satisfies [Q]. *)
Definition post {A} (Q : world -> Prop) (m : M A) : Prop :=
  forall w a w', m w = (Done a, w') -> Q w'.

(** A run of [m] changes the file tree at most at the paths of [S]. *)
Definition writes_within {A} (S : string -> bool) (m : M A) : Prop :=
  forall w p, S p = false -> files (snd (m w)) !! p = files w !! p.

(** An event that is no command. *)
Definition is_line (e : event) : Prop :=
  match e with
  | Run _ => False
  | _ => True
  end.

(** The text of [load-rules.js] for the rules of the given names. *)
Definition rules_index_text (names : list string) : string :=
  "module.exports = function() {" +:+ nl
  +:+ "    var rules = Object.create(null);" +:+ nl
  +:+ String.concat EmptyString
        ((fun name => "    rules[" +:+ quote +:+ name +:+ quote +:+ "] = require("
                      +:+ quote +:+ "./rules/" +:+ name +:+ quote +:+ ");" +:+ nl) <$> names)
  +:+ nl +:+ "    return rules;" +:+ nl +:+ "};".

(** The paths of the temporary directory and of the build directory. *)
Definition in_tmp_or_build (p : string) : bool :=
  String.prefix "tmp" p || String.prefix "build" p.

(** The paths of the checkout of the site. *)
Definition in_site_docs (p : string) : bool :=
  String.prefix "../eslint.github.io/docs" p.


(** The log command for a list of range tags. *)
Definition range_log_command (rangeTags : list string) : string :=
  "git log --pretty=format:" +:+ quote +:+ "* %s (%an)" +:+ quote +:+ " " +:+ JS.join ".." rangeTags.

(** Neither the push of the tags nor the publication. *)
Definition before_push (e : event) : Prop :=
  e <> Run "git push origin master --tags" /\ e <> Run "npm publish".

(** In a run of [m] the event [late] comes only after the event [early]. *)
Definition only_after {A} (early late : event) (m : M A) : Prop :=
  forall w, exists evs,
    out (snd (m w)) = out w ++ evs
    /\ (In late evs ->
        exists before after,
          evs = before ++ early :: after /\ ~ In late before /\ In late after).

(** * Further projects *)

(** The small project on a machine that reports a clock speed of 0. *)
Definition stalled_clock_world : world :=
  World example_files "/home/eslint"
    (list_to_map [("no-alert", 2%Z); ("quotes", 2%Z)])
    [0%Z] example_shell example_today Qred [].

(** A repository with a single tag and an empty log. *)
Definition one_tag_shell (cmd : string) : Z * string :=
  if String.eqb cmd "git tag" then (0%Z, "v1.0.0" +:+ nl)
  else (0%Z, EmptyString).

Definition one_tag_world : world :=
  World example_files "/home/eslint"
    (list_to_map [("no-alert", 2%Z); ("quotes", 2%Z)])
    [50000%Z] one_tag_shell example_today Qred [].

(** The small project without its changelog. *)
Definition no_changelog_world : world :=
  set_files (delete "CHANGELOG.md") example_world.

(** * Properties *)

(** ** Strings *)

Lemma append_String (c : ascii) (a b : string) : String c a +:+ b = String c (a +:+ b).
Proof. reflexivity. Qed.

Lemma append_empty (b : string) : EmptyString +:+ b = b.
Proof. reflexivity. Qed.

Ltac unfold_append := rewrite ?append_String, ?append_empty in *.

Lemma prefix_spec (a s : string) :
  String.prefix a s = true <-> exists post, s = a +:+ post.
Proof.
  revert s. induction a as [|c a IH]; intros s; simpl.
  - split; [intros _; now exists s | now destruct s].
  - destruct s as [|c' s]; simpl.
    + split; [discriminate | intros [post H]; discriminate].
    + destruct (ascii_dec c c') as [->|Hne].
      * rewrite IH. split; intros [post H]; exists post; unfold_append; congruence.
      * split; [discriminate | intros [post H]; unfold_append; congruence].
Qed.

Lemma mentions_spec (phrase s : string) :
  mentions phrase s = true <-> exists pre post, s = pre +:+ phrase +:+ post.
Proof.
  unfold mentions. induction s as [|c s IH]; cbn [suffixes existsb].
  - rewrite orb_false_r, prefix_spec. split.
    + intros [post H]. now exists EmptyString, post.
    + intros [pre [post H]]. destruct pre; [now exists post | discriminate].
  - rewrite orb_true_iff, IH, prefix_spec. split.
    + intros [[post H] | [pre [post H]]].
      * now exists EmptyString, post.
      * exists (String c pre), post. unfold_append. now rewrite H.
    + intros [pre [post H]]. destruct pre as [|c' pre]; unfold_append.
      * left. now exists post.
      * right. exists pre, post. congruence.
Qed.

Lemma indexOf_from_range (needle s : string) (i : Z) :
  JS.indexOf_from needle s i = (-1)%Z \/ (i <= JS.indexOf_from needle s i)%Z.
Proof.
  revert i. induction s as [|c s IH]; intros i; cbn [JS.indexOf_from].
  - destruct (String.prefix needle ""); [right; lia | now left].
  - destruct (String.prefix needle (String c s)); [right; lia |].
    destruct (IH (i + 1)%Z) as [H | H]; [now left | right; lia].
Qed.

Lemma indexOf_from_mentions (needle s : string) (i : Z) :
  (0 <= i)%Z ->
  (JS.indexOf_from needle s i =? -1)%Z = negb (mentions needle s).
Proof.
  unfold mentions. revert i.
  induction s as [|c s IH]; intros i Hi; cbn [JS.indexOf_from suffixes existsb].
  - destruct (String.prefix needle ""); cbn [orb negb]; [| reflexivity].
    apply Z.eqb_neq. lia.
  - destruct (String.prefix needle (String c s)); cbn [orb negb].
    + apply Z.eqb_neq. lia.
    + apply IH. lia.
Qed.

Lemma indexOf_mentions (s needle : string) :
  (JS.indexOf s needle =? -1)%Z = negb (mentions needle s).
Proof. apply indexOf_from_mentions. lia. Qed.

Lemma logFilter_merge (line : string) : logFilter line = negb (is_merge_line line).
Proof.
  unfold logFilter, is_merge_line.
  rewrite !indexOf_mentions. now rewrite negb_orb.
Qed.

Lemma prefix_cons (c c' : ascii) (a s : string) :
  String.prefix (String c a) (String c' s) = Ascii.eqb c c' && String.prefix a s.
Proof.
  cbn [String.prefix]. destruct (ascii_dec c c') as [->|Hne].
  - now rewrite Ascii.eqb_refl.
  - apply Ascii.eqb_neq in Hne. now rewrite Hne.
Qed.

Lemma prefix_dot (s : string) :
  String.prefix "." s = match s with String c _ => Ascii.eqb "." c | EmptyString => false end.
Proof.
  destruct s as [|c s]; [reflexivity |].
  rewrite prefix_cons. destruct s; apply andb_true_r.
Qed.

Lemma lastIndexOf_from_no_dot (s : string) (i : Z) :
  has_char "." s = false -> JS.lastIndexOf_from "." s i = (-1)%Z.
Proof.
  revert i. induction s as [|c s IH]; intros i H; cbn [JS.lastIndexOf_from has_char] in *.
  - reflexivity.
  - apply orb_false_iff in H as [Hc Hs].
    rewrite (IH _ Hs), prefix_dot, Hc. reflexivity.
Qed.

Lemma lastIndexOf_from_last_dot (pre suf : string) (i : Z) :
  (0 <= i)%Z ->
  has_char "." suf = false ->
  JS.lastIndexOf_from "." (pre +:+ "." +:+ suf) i = (i + Z.of_nat (String.length pre))%Z.
Proof.
  revert i. induction pre as [|c pre IH]; intros i Hi Hsuf; unfold_append.
  - cbn [JS.lastIndexOf_from String.length].
    rewrite (lastIndexOf_from_no_dot _ _ Hsuf), prefix_dot, Ascii.eqb_refl.
    cbn. lia.
  - cbn [String.length JS.lastIndexOf_from].
    rewrite IH by (lia || assumption).
    destruct (Z.eqb_spec (i + 1 + Z.of_nat (String.length pre)) (-1)); lia.
Qed.

Lemma skip_append (pre s : string) : JS.skip (String.length pre) (pre +:+ s) = s.
Proof. induction pre; unfold_append; cbn [String.length JS.skip]; auto. Qed.

Lemma split_at_last_dot (s : string) :
  has_char "." s = true ->
  exists pre suf, s = pre +:+ "." +:+ suf /\ has_char "." suf = false.
Proof.
  induction s as [|c s IH]; cbn [has_char]; [discriminate |].
  destruct (has_char "." s) eqn:Hs.
  - intros _. destruct (IH eq_refl) as (pre & suf & -> & Hsuf).
    now exists (String c pre), suf.
  - rewrite orb_false_r. intros Hc. apply Ascii.eqb_eq in Hc as <-.
    now exists EmptyString, s.
Qed.

Lemma fileType_no_dot (extension filename : string) :
  has_char "." filename = false ->
  fileType extension filename = String.eqb filename extension.
Proof.
  intros H. unfold fileType, JS.lastIndexOf.
  now rewrite (lastIndexOf_from_no_dot _ _ H).
Qed.

Lemma append_assoc (a b c : string) : (a +:+ b) +:+ c = a +:+ b +:+ c.
Proof. induction a as [|x a IH]; unfold_append; [reflexivity | now rewrite IH]. Qed.

Lemma append_empty_r (a : string) : a +:+ EmptyString = a.
Proof. induction a as [|x a IH]; unfold_append; [reflexivity | now rewrite IH]. Qed.

Lemma length_append (a b : string) :
  String.length (a +:+ b) = (String.length a + String.length b)%nat.
Proof. induction a as [|x a IH]; unfold_append; cbn [String.length]; [reflexivity | now rewrite IH]. Qed.

Lemma fileType_last_dot (extension pre suf : string) :
  has_char "." suf = false ->
  fileType extension (pre +:+ "." +:+ suf) = String.eqb suf extension.
Proof.
  intros H. unfold fileType, JS.lastIndexOf, JS.substring.
  rewrite lastIndexOf_from_last_dot by (lia || assumption).
  replace (Z.to_nat (0 + Z.of_nat (String.length pre) + 1)) with (String.length (pre +:+ ".")).
  2:{ rewrite length_append. cbn [String.length]. lia. }
  now rewrite <- append_assoc, skip_append.
Qed.

(** ** Running a task *)

Lemma emit_emit (e1 e2 : list event) (w : world) : emit e2 (emit e1 w) = emit (e1 ++ e2) w.
Proof. unfold emit. cbn. now rewrite <- app_assoc. Qed.

Lemma emit_nil (w : world) : emit [] w = w.
Proof. destruct w. unfold emit. cbn. now rewrite app_nil_r. Qed.

Lemma events_since_emit (evs : list event) (w : world) : events_since w (emit evs w) = evs.
Proof. unfold events_since. cbn. apply drop_app_length. Qed.

Lemma fileSet_run (dir extension : string) (w : world) :
  fileSet dir extension w = (Done (List.filter (fileType extension) (shelljs.listing dir w)), w).
Proof. reflexivity. Qed.

Lemma load_run (w : world) :
  load w =
  (Done (Settings (JS.join " " (List.filter (fileType "js") (shelljs.listing "lib/" w)))
                  (JS.join " " (List.filter (fileType "json") (shelljs.listing "conf/" w)) +:+ " .eslintrc")
                  (JS.join " " (List.filter (fileType "js") (shelljs.listing "tests/lib/" w)))), w).
Proof. reflexivity. Qed.

(** ** The file sets *)

(** C7: resolving a file set (the enumeration of a directory filtered by
    extension) in two worlds with the same file tree gives the same
    sequence of paths, in the same order; resolving leaves the world as it
    was, so that resolving twice in a row gives the same sequence twice.
    The same holds for the three file sets of the build file. *)
Theorem fileSet_unchanged_tree (dir extension : string) (w1 w2 : world) :
  files w1 = files w2 ->
  (exists paths,
      fileSet dir extension w1 = (Done paths, w1)
      /\ fileSet dir extension w2 = (Done paths, w2)
      /\ (first <- fileSet dir extension ;; second <- fileSet dir extension ;; ret (first, second)) w1
         = (Done (paths, paths), w1))
  /\ (exists G, load w1 = (Done G, w1) /\ load w2 = (Done G, w2)).
Proof.
  intros Hfiles. split.
  - exists (List.filter (fileType extension) (shelljs.listing dir w1)).
    split; [reflexivity |]. split; [| reflexivity].
    rewrite fileSet_run. unfold shelljs.listing. now rewrite Hfiles.
  - rewrite !load_run. unfold shelljs.listing. rewrite Hfiles. eauto.
Qed.

Lemma fileSet_unchanged_tree_witness :
  (exists paths,
      fileSet "lib/" "js" example_world = (Done paths, example_world)
      /\ fileSet "lib/" "js" (emit [Echo "Validating rules" []] example_world)
         = (Done paths, emit [Echo "Validating rules" []] example_world)
      /\ (first <- fileSet "lib/" "js" ;; second <- fileSet "lib/" "js" ;; ret (first, second))
           example_world
         = (Done (paths, paths), example_world))
  /\ (exists G, load example_world = (Done G, example_world)
               /\ load (emit [Echo "Validating rules" []] example_world)
                  = (Done G, emit [Echo "Validating rules" []] example_world)).
Proof.
  apply (fileSet_unchanged_tree "lib/" "js" example_world
           (emit [Echo "Validating rules" []] example_world)).
  reflexivity.
Defined.

Example example_file_sets :
  fst (load example_world)
  = Done (Settings "lib/eslint.js lib/rules/quotes.js lib/rules/no-alert.js lib/load-rules.js"
                   "conf/eslint.json .eslintrc"
                   "tests/lib/rules/quotes.js tests/lib/rules/no-alert.js").
Proof. vm_compute. reflexivity. Qed.

(** ** The extension predicate *)

Lemma eqb_append_longer (dir name : string) :
  dir <> EmptyString -> String.eqb (dir +:+ name) name = false.
Proof.
  intros Hdir. apply String.eqb_neq. intros H.
  apply (f_equal String.length) in H. rewrite length_append in H.
  destruct dir; [congruence | cbn [String.length] in H; lia].
Qed.

Lemma has_char_append (c : ascii) (a b : string) :
  has_char c (a +:+ b) = has_char c a || has_char c b.
Proof.
  induction a as [|x a IH]; unfold_append; cbn [has_char]; [reflexivity |].
  now rewrite IH, orb_assoc.
Qed.

(** C9 (as amended): the predicate compares the text after the last dot
    of the string it is given with the extension.  For a string without a
    dot it holds exactly when the whole string is the extension.  The
    string is the path as enumerated, directory included: a name without a
    dot that is the extension itself is not matched once a directory
    stands before it, as [lib/js] for extension [js]. *)
Theorem fileType_without_dot (extension filename : string) :
  has_char "." filename = false ->
  (fileType extension filename = true <-> filename = extension)
  /\ (forall pre, fileType extension (pre +:+ "." +:+ filename) = true <-> filename = extension)
  /\ (forall dir, dir <> EmptyString -> has_char "." dir = false ->
                  fileType filename (dir +:+ filename) = false).
Proof.
  intros Hdot. repeat split.
  - rewrite fileType_no_dot by assumption. apply String.eqb_eq.
  - rewrite fileType_no_dot by assumption. apply String.eqb_eq.
  - rewrite fileType_last_dot by assumption. apply String.eqb_eq.
  - rewrite fileType_last_dot by assumption. apply String.eqb_eq.
  - intros dir Hdir Hnodot. rewrite fileType_no_dot.
    + now apply eqb_append_longer.
    + rewrite has_char_append, Hnodot, Hdot. reflexivity.
Qed.

Lemma fileType_without_dot_witness :
  (fileType "js" "js" = true <-> "js" = "js")
  /\ (forall pre, fileType "js" (pre +:+ "." +:+ "js") = true <-> "js" = "js")
  /\ (forall dir, dir <> EmptyString -> has_char "." dir = false ->
                  fileType "js" (dir +:+ "js") = false).
Proof. apply (fileType_without_dot "js" "js"). reflexivity. Defined.

(** Every path of the JavaScript file set lies below [lib/] and ends in
    [.js]; none is the bare name [js]. *)
Lemma JS_file_set_paths (w : world) (p : string) :
  In p (List.filter (fileType "js") (shelljs.listing "lib/" w)) ->
  String.prefix "lib/" p = true /\ exists stem, p = stem +:+ ".js".
Proof.
  rewrite filter_In. unfold shelljs.listing. intros [[<- | Hin] Htype].
  - discriminate Htype.
  - apply filter_In in Hin as [_ Hbelow].
    change (shelljs.below "lib/" p) with (String.prefix "lib/" p) in Hbelow.
    split; [exact Hbelow |].
    destruct (has_char "." p) eqn:Hdot.
    + destruct (split_at_last_dot p Hdot) as (pre & suf & -> & Hsuf).
      rewrite fileType_last_dot in Htype by exact Hsuf.
      apply String.eqb_eq in Htype as ->. now exists pre.
    + rewrite fileType_no_dot in Htype by exact Hdot.
      apply String.eqb_eq in Htype as ->. discriminate Hbelow.
Qed.

(** C9 (as stated, refuted): a file named [js] in [lib/] is enumerated as
    [lib/js]; the predicate for [js] does not hold of that path, and the
    file is not in the JavaScript file set. *)
Lemma file_named_js_not_in_file_set :
  is_file example_world "lib/js" = true
  /\ In "lib/js" (shelljs.listing "lib/" example_world)
  /\ fileType "js" "lib/js" = false
  /\ exists paths, fileSet "lib/" "js" example_world = (Done paths, example_world)
                   /\ ~ In "lib/js" paths.
Proof.
  split; [reflexivity |]. split; [vm_compute; tauto |]. split; [reflexivity |].
  eexists. split; [reflexivity |].
  vm_compute. intros H. repeat (destruct H as [H | H]; [discriminate H |]). exact H.
Qed.

(** ** The changelog filter *)

(** C10: the filter drops a line of the log exactly when the line contains
    [Merge pull request] or [Merge branch] somewhere; so a commit that is
    no merge but whose subject mentions one of the two is dropped too. *)
Theorem logFilter_drops_lines_with_merge_phrase :
  (forall line : string,
      logFilter line = false <->
      (exists pre post, line = pre +:+ "Merge pull request" +:+ post)
      \/ (exists pre post, line = pre +:+ "Merge branch" +:+ post))
  /\ (forall (lines : list string) (line : string),
         In line (List.filter logFilter lines) <-> In line lines /\ is_merge_line line = false)
  /\ logFilter "* Fix: Merge branch names are escaped (A)" = false
  /\ logFilter "* Docs: how to Merge pull requests (B)" = false.
Proof.
  split; [| split; [| split; reflexivity]].
  - intros line. rewrite logFilter_merge, negb_false_iff.
    unfold is_merge_line. now rewrite orb_true_iff, !mentions_spec.
  - intros lines line. rewrite filter_In, logFilter_merge, negb_true_iff. reflexivity.
Qed.

(** ** The rule-file validator *)

Lemma test_f_run (p : string) (w : world) :
  shelljs.test "-f" p w = (Done (is_file w p), w).
Proof.
  unfold shelljs.test, read, is_file.
  destruct (files w !! shelljs.key p) as [[text|]|]; reflexivity.
Qed.

Lemma is_file_emit (evs : list event) (w : world) (p : string) :
  is_file (emit evs w) p = is_file w p.
Proof. reflexivity. Qed.

Lemma bind_ret {A B} (a : A) (k : A -> M B) (w : world) : bind (ret a) k w = k a w.
Proof. reflexivity. Qed.

Lemma bind_read {A B} (f : world -> A) (k : A -> M B) (w : world) :
  bind (read f) k w = k (f w) w.
Proof. reflexivity. Qed.

Lemma bind_modify {B} (f : world -> world) (k : unit -> M B) (w : world) :
  bind (modify f) k w = k tt (f w).
Proof. reflexivity. Qed.

Lemma bind_exit {A B} (code : Z) (k : A -> M B) (w : world) :
  bind (exit code) k w = (Exit code, w).
Proof. reflexivity. Qed.

Lemma bind_bind {A B C} (m : M A) (k1 : A -> M B) (k2 : B -> M C) (w : world) :
  bind (bind m k1) k2 w = bind m (fun a => bind (k1 a) k2) w.
Proof. unfold bind. destruct (m w) as [[a|c|e] w']; reflexivity. Qed.

Lemma bind_if {A B} (b : bool) (m1 m2 : M A) (k : A -> M B) (w : world) :
  bind (if b then m1 else m2) k w = if b then bind m1 k w else bind m2 k w.
Proof. now destruct b. Qed.

Lemma bind_test_f {B} (p : string) (k : bool -> M B) (w : world) :
  bind (shelljs.test "-f" p) k w = k (is_file w p) w.
Proof. unfold bind. now rewrite test_f_run. Qed.

Lemma bind_error {B} (fmt : string) (args : list arg) (k : unit -> M B) (w : world) :
  bind (console.error fmt args) k w = k tt (emit [ConsoleError fmt args] w).
Proof. reflexivity. Qed.

Lemma bind_echo {B} (fmt : string) (args : list arg) (k : unit -> M B) (w : world) :
  bind (shelljs.echo fmt args) k w = k tt (emit [Echo fmt args] w).
Proof. reflexivity. Qed.

Lemma ret_run {A} (a : A) (w : world) : ret a w = (Done a, w).
Proof. reflexivity. Qed.

Ltac run :=
  repeat (rewrite ?bind_bind, ?bind_ret, ?bind_read, ?bind_modify, ?bind_exit, ?bind_test_f,
            ?bind_error, ?bind_echo, ?ret_run, ?is_file_emit, ?emit_emit;
          cbv beta; cbn [negb]).

Lemma checkRuleFile_run (index filename : string) (errors : nat) (w : world) :
  let rule := path.basename filename ".js" in
  checkRuleFile index (confRules w) filename errors w
  = (Done (errors + missing_conditions w index rule)%nat, emit (rule_report w index rule) w).
Proof.
  intros rule. unfold checkRuleFile. fold rule.
  unfold missing_conditions, rule_report, has_link, has_doc, has_tests, has_setting.
  rewrite indexOf_mentions.
  run.
  destruct (is_file w ("docs/rules/" +:+ rule +:+ ".md")),
    (mentions ("(" +:+ rule +:+ ".md)") index),
    (bool_decide (is_Some (confRules w !! rule))); run.
  all: destruct (is_file w ("tests/lib/rules/" +:+ rule +:+ ".js")); run.
  all: cbn [app]; rewrite ?emit_nil.
  all: f_equal; f_equal; lia.
Qed.

Lemma rule_report_emit (evs : list event) (w : world) (index rule : string) :
  rule_report (emit evs w) index rule = rule_report w index rule.
Proof. reflexivity. Qed.

Lemma missing_conditions_emit (evs : list event) (w : world) (index rule : string) :
  missing_conditions (emit evs w) index rule = missing_conditions w index rule.
Proof. reflexivity. Qed.

Lemma checkRuleFiles_loop_run (index : string) (ruleFiles : list string) (errors : nat) (w : world) :
  let rules := (fun filename => path.basename filename ".js") <$> ruleFiles in
  checkRuleFiles_loop index (confRules w) ruleFiles errors w
  = (Done (errors + list_sum (missing_conditions w index <$> rules))%nat,
     emit (flat_map (rule_report w index) rules) w).
Proof.
  cbv zeta. revert errors w.
  induction ruleFiles as [|filename rest IH]; intros errors w;
    cbn [checkRuleFiles_loop fmap list_fmap flat_map list_sum fold_right].
  - cbn. now rewrite emit_nil, Nat.add_0_r.
  - unfold bind. rewrite checkRuleFile_run.
    change (confRules w) with (confRules (emit (rule_report w index (path.basename filename ".js")) w)).
    rewrite IH, emit_emit, Nat.add_assoc. reflexivity.
Qed.

Lemma rule_report_length (w : world) (index rule : string) :
  List.length (rule_report w index rule) = missing_conditions w index rule.
Proof.
  unfold rule_report, missing_conditions.
  destruct (has_doc w rule), (has_link index rule), (has_setting w rule), (has_tests w rule);
    reflexivity.
Qed.

Lemma reports_length (w : world) (index : string) (rules : list string) :
  List.length (flat_map (rule_report w index) rules)
  = list_sum (missing_conditions w index <$> rules).
Proof.
  induction rules as [|rule rules IH]; [reflexivity |].
  cbn [flat_map fmap list_fmap list_sum fold_right].
  rewrite length_app, rule_report_length. f_equal. exact IH.
Qed.

Lemma cat_one_run (p text : string) (w : world) :
  file_text w p = Some text -> shelljs.cat [p] w = (Done text, w).
Proof.
  unfold file_text, shelljs.cat. cbn [shelljs.read_all]. intros ->. reflexivity.
Qed.

Lemma checkRuleFiles_run (w : world) (index : string) :
  file_text w "docs/rules/README.md" = Some index ->
  target_checkRuleFiles w
  = (if (list_sum (missing_conditions w index <$> rules_of w) =? 0)%nat then Done tt else Exit 1,
     emit (Echo "Validating rules" [] :: flat_map (rule_report w index) (rules_of w)) w).
Proof.
  intros Hindex. unfold target_checkRuleFiles.
  run. unfold bind at 1. rewrite fileSet_run.
  unfold bind at 1. rewrite (cat_one_run _ index) by exact Hindex.
  run. unfold bind at 1.
  change (confRules w) with (confRules (emit [Echo "Validating rules" []] w)).
  rewrite checkRuleFiles_loop_run.
  change (shelljs.listing "lib/rules/" (emit [Echo "Validating rules" []] w))
    with (shelljs.listing "lib/rules/" w).
  fold (rules_of w). rewrite emit_emit. cbn [app Nat.add].
  destruct (list_sum _ =? 0)%nat; reflexivity.
Qed.

(** C2: the validator reports on every rule of the rule file set, in
    order and whatever came before: the lines it prints are those of the
    first rule, then those of the second, and so on; there is one line,
    and one increment of the counter, per missing condition; it ends the
    process with status 1 exactly when the counter is not zero after the
    last rule, and returns otherwise.  When the documentation of one rule
    is missing, the run fails, a line names that rule, and the lines of
    all other rules are printed as well.  When nothing is missing, nothing
    is reported and the run succeeds. *)
Theorem checkRuleFiles_checks_every_rule (w : world) (index : string) :
  file_text w "docs/rules/README.md" = Some index ->
  let rules := rules_of w in
  let reports := flat_map (rule_report w index) rules in
  let errors := list_sum (missing_conditions w index <$> rules) in
  target_checkRuleFiles w
  = (if (errors =? 0)%nat then Done tt else Exit 1,
     emit (Echo "Validating rules" [] :: reports) w)
  /\ List.length reports = errors
  /\ (fst (target_checkRuleFiles w) = Exit 1 <-> errors <> 0%nat)
  /\ (fst (target_checkRuleFiles w) = Done tt <-> errors = 0%nat)
  /\ (forall before rule after,
         rules = before ++ rule :: after ->
         has_doc w rule = false ->
         fst (target_checkRuleFiles w) = Exit 1
         /\ In (ConsoleError "Missing documentation for rule %s" [Str rule])
               (events_since w (snd (target_checkRuleFiles w)))
         /\ forall other, In other (before ++ after) ->
                          incl (rule_report w index other)
                               (events_since w (snd (target_checkRuleFiles w))))
  /\ ((forall rule, In rule rules ->
                    has_doc w rule = true /\ has_link index rule = true
                    /\ has_setting w rule = true /\ has_tests w rule = true) ->
      target_checkRuleFiles w = (Done tt, emit [Echo "Validating rules" []] w)).
Proof.
  intros Hindex rules reports errors.
  pose proof (checkRuleFiles_run w index Hindex) as Hrun.
  fold rules in Hrun. fold reports errors in Hrun.
  assert (Hlen : List.length reports = errors) by apply reports_length.
  split; [exact Hrun |]. split; [exact Hlen |].
  rewrite Hrun. cbn [fst snd]. rewrite events_since_emit.
  split; [| split; [| split]].
  - destruct (Nat.eqb_spec errors 0); split; congruence.
  - destruct (Nat.eqb_spec errors 0); split; congruence.
  - intros before rule after Hrules Hdoc.
    assert (Hrule : In (ConsoleError "Missing documentation for rule %s" [Str rule])
                       (rule_report w index rule)).
    { unfold rule_report. rewrite Hdoc. now left. }
    assert (Hin : forall r e, In r rules -> In e (rule_report w index r) -> In e reports).
    { intros r e Hr He. apply in_flat_map. eauto. }
    assert (Hmem : In rule rules) by (rewrite Hrules; apply in_elt).
    split; [| split].
    + destruct (Nat.eqb_spec errors 0) as [Hzero|]; [| reflexivity].
      rewrite <- Hlen in Hzero. apply length_zero_iff_nil in Hzero.
      specialize (Hin rule _ Hmem Hrule). rewrite Hzero in Hin. destruct Hin.
    + right. eauto.
    + intros other Hother e He. right. apply (Hin other); [| exact He].
      rewrite Hrules. apply in_app_iff in Hother as [H | H]; apply in_app_iff; [now left |].
      right. now right.
  - intros Hall.
    assert (Hnil : reports = []).
    { unfold reports. clear -Hall. induction rules as [|rule rest IH]; [reflexivity |].
      cbn [flat_map]. rewrite IH by (intros r Hr; apply Hall; now right).
      destruct (Hall rule (or_introl eq_refl)) as (H1 & H2 & H3 & H4).
      unfold rule_report. now rewrite H1, H2, H3, H4. }
    rewrite <- Hlen, Hnil. reflexivity.
Qed.

Lemma checkRuleFiles_checks_every_rule_witness :
  file_text undocumented_world "docs/rules/README.md"
  = Some ("* [no-alert](no-alert.md)" +:+ nl +:+ "* [quotes](quotes.md)")
  /\ target_checkRuleFiles undocumented_world
     = (Exit 1,
        emit [Echo "Validating rules" [];
              ConsoleError "Missing documentation for rule %s" [Str "quotes"]]
             undocumented_world).
Proof.
  split; [reflexivity |].
  exact (proj1 (checkRuleFiles_checks_every_rule undocumented_world
                  ("* [no-alert](no-alert.md)" +:+ nl +:+ "* [quotes](quotes.md)") eq_refl)).
Defined.

Example checkRuleFiles_complete_project :
  target_checkRuleFiles example_world
  = (Done tt, emit [Echo "Validating rules" []] example_world).
Proof. vm_compute. reflexivity. Qed.


(** ** The performance gate *)

Lemma compareNumbers_le (y x : Q) : Qle_bool (compareNumbers y x) 0 = Qle_bool y x.
Proof.
  apply eq_iff_eq_true. rewrite !Qle_bool_iff. unfold compareNumbers. split; intros H; lra.
Qed.

Lemma sort_three (a b c : Q) :
  sort compareNumbers [a; b; c]
  = if Qle_bool a b
    then (if Qle_bool a c then (if Qle_bool b c then [a; b; c] else [a; c; b]) else [c; a; b])
    else (if Qle_bool b c then (if Qle_bool a c then [b; a; c] else [b; c; a]) else [c; b; a]).
Proof.
  unfold sort. cbn [fold_left sort_insert]. rewrite !compareNumbers_le.
  destruct (Qle_bool a b) eqn:Hab, (Qle_bool a c) eqn:Hac, (Qle_bool b c) eqn:Hbc;
    cbn [negb sort_insert]; rewrite ?compareNumbers_le, ?Hab, ?Hac, ?Hbc;
    cbn [negb sort_insert]; rewrite ?compareNumbers_le, ?Hab, ?Hac, ?Hbc;
    reflexivity.
Qed.

Lemma Qle_bool_false (x y : Q) : Qle_bool x y = false <-> (y < x)%Q.
Proof.
  rewrite <- not_true_iff_false, Qle_bool_iff. split; [apply Qnot_le_lt | apply Qlt_not_le].
Qed.

Ltac order_facts :=
  repeat match goal with
         | H : Qle_bool _ _ = true |- _ => apply Qle_bool_iff in H
         | H : Qle_bool _ _ = false |- _ => apply Qle_bool_false in H
         end.

Ltac decide_le x y :=
  first [ replace (Qle_bool x y) with true by (symmetry; apply Qle_bool_iff; lra)
        | replace (Qle_bool x y) with false by (symmetry; apply Qle_bool_false; lra) ].

Ltac permutation_of_three :=
  first
    [ reflexivity
    | apply perm_swap
    | apply perm_skip, perm_swap
    | eapply perm_trans; [apply perm_swap | apply perm_skip, perm_swap]
    | eapply perm_trans; [apply perm_skip, perm_swap | apply perm_swap]
    | eapply perm_trans; [apply perm_swap |];
      eapply perm_trans; [apply perm_skip, perm_swap | apply perm_swap] ].

Lemma sort_three_sorted (a b c : Q) :
  Sorted Qle (sort compareNumbers [a; b; c]) /\ Permutation [a; b; c] (sort compareNumbers [a; b; c]).
Proof.
  rewrite sort_three.
  destruct (Qle_bool a b) eqn:Hab, (Qle_bool a c) eqn:Hac, (Qle_bool b c) eqn:Hbc;
    order_facts; (split; [repeat constructor; lra | permutation_of_three]).
Qed.

Lemma sort_three_median (a b c : Q) :
  exists m, sort compareNumbers [a; b; c] !! 1%nat = Some m /\ is_median m a b c.
Proof.
  rewrite sort_three. unfold is_median.
  destruct (Qle_bool a b) eqn:Hab, (Qle_bool a c) eqn:Hac, (Qle_bool b c) eqn:Hbc;
    order_facts; eexists; (split; [reflexivity |]); cbn [List.filter].
  all: split; [cbn; tauto |].
  all: repeat match goal with
              | |- context [Qle_bool ?x ?y] => first [decide_le x y | destruct (Qle_bool x y)]
              end.
  all: cbn [List.length]; split; lia.
Qed.

Lemma exec_run (cmd : string) (w : world) :
  shelljs.exec cmd w
  = (if (fst (shell w cmd) =? 0)%Z then Done (snd (shell w cmd)) else Exit 1, emit [Run cmd] w).
Proof. unfold shelljs.exec. now destruct (fst (shell w cmd) =? 0)%Z. Qed.

Lemma bind_exec_ok {B} (cmd : string) (k : string -> M B) (w : world) :
  fst (shell w cmd) = 0%Z ->
  bind (shelljs.exec cmd) k w = k (snd (shell w cmd)) (emit [Run cmd] w).
Proof. intros H. unfold bind. rewrite exec_run, H. reflexivity. Qed.

Lemma bind_exec_fail {B} (cmd : string) (k : string -> M B) (w : world) :
  fst (shell w cmd) <> 0%Z ->
  bind (shelljs.exec cmd) k w = (Exit 1, emit [Run cmd] w).
Proof.
  intros H. unfold bind. rewrite exec_run.
  destruct (Z.eqb_spec (fst (shell w cmd)) 0); [contradiction | reflexivity].
Qed.

Lemma echo_run (fmt : string) (args : list arg) (w : world) :
  shelljs.echo fmt args w = (Done tt, emit [Echo fmt args] w).
Proof. reflexivity. Qed.

Lemma exit_run {A} (code : Z) (w : world) : exit (A:=A) code w = (Exit code, w).
Proof. reflexivity. Qed.

Lemma perf_run (w : world) (cpuSpeed : Z) (others : list Z) (diff1 diff2 diff3 : Z * Z) :
  cpus w = cpuSpeed :: others ->
  fst (shell w (ESLINT +:+ "./tests/performance/jshint.js")) = 0%Z ->
  let actual1 := milliseconds (round w) diff1 in
  let actual2 := milliseconds (round w) diff2 in
  let actual3 := milliseconds (round w) diff3 in
  let max := perf_limit (round w) cpuSpeed in
  let over := exceeds (sort compareNumbers [actual1; actual2; actual3] !! 1%nat) max in
  target_perf diff1 diff2 diff3 w
  = (if over then Exit 1 else Done tt,
     emit [ Echo "CPU Speed is %d with multiplier %d"
              [Num (Fin (inject_Z cpuSpeed)); Num (Fin PERF_MULTIPLIER)];
            Run (ESLINT +:+ "./tests/performance/jshint.js");
            Echo "Performance Run #1:  %dms (limit: %dms)" [Num (Fin actual1); Num max];
            Run (ESLINT +:+ "./tests/performance/jshint.js");
            Echo "Performance Run #2:  %dms (limit: %dms)" [Num (Fin actual2); Num max];
            Run (ESLINT +:+ "./tests/performance/jshint.js");
            Echo "Performance Run #3:  %dms (limit: %dms)" [Num (Fin actual3); Num max];
            Echo (if over then "Performance budget exceeded: %dms (limit: %dms)"
                  else "Performance budget ok:  %dms (limit: %dms)")
              [Num (Fin actual3); Num max] ] w).
Proof.
  intros Hcpus Hcmd actual1 actual2 actual3 max over.
  unfold target_perf. rewrite bind_read, Hcpus. cbv iota.
  rewrite bind_read. cbv beta zeta. fold actual1 actual2 actual3 max.
  unfold shelljs.exec_then.
  run. rewrite bind_exec_ok by exact Hcmd.
  run. rewrite bind_exec_ok by exact Hcmd.
  run. rewrite bind_exec_ok by exact Hcmd.
  run. cbn [app]. fold over.
  destruct over; run; rewrite ?echo_run, ?emit_emit; reflexivity.
Qed.

Lemma exceeds_above (m : Q) (limit : number) :
  exceeds (Some m) limit = true <-> above m limit.
Proof.
  destruct limit as [x|]; cbn [exceeds gt above].
  - rewrite negb_true_iff. apply Qle_bool_false.
  - split; [discriminate | contradiction].
Qed.

(** C1: when the three runs complete, the gate sorts the three durations
    in ascending order and decides on the second of them, which is their
    median: the process exits with status 1 exactly when the median is
    above the limit, the constant divided by the clock speed of the first
    processor, and the task returns otherwise. *)
Theorem perf_decides_on_median
    (w : world) (cpuSpeed : Z) (others : list Z) (diff1 diff2 diff3 : Z * Z) :
  cpus w = cpuSpeed :: others ->
  fst (shell w (ESLINT +:+ "./tests/performance/jshint.js")) = 0%Z ->
  let actual1 := milliseconds (round w) diff1 in
  let actual2 := milliseconds (round w) diff2 in
  let actual3 := milliseconds (round w) diff3 in
  let max := perf_limit (round w) cpuSpeed in
  let results := sort compareNumbers [actual1; actual2; actual3] in
  (cpuSpeed <> 0%Z -> max = Fin (round w (PERF_MULTIPLIER / inject_Z cpuSpeed)))
  /\ Sorted Qle results
  /\ Permutation [actual1; actual2; actual3] results
  /\ exists median,
      results !! 1%nat = Some median
      /\ is_median median actual1 actual2 actual3
      /\ (fst (target_perf diff1 diff2 diff3 w) = Exit 1 <-> above median max)
      /\ (fst (target_perf diff1 diff2 diff3 w) = Done tt <-> ~ above median max).
Proof.
  intros Hcpus Hcmd actual1 actual2 actual3 max results.
  split.
  { intros Hspeed. unfold max, perf_limit.
    destruct (Z.eqb_spec cpuSpeed 0); [contradiction | reflexivity]. }
  destruct (sort_three_sorted actual1 actual2 actual3) as [Hsorted Hperm].
  split; [exact Hsorted |]. split; [exact Hperm |].
  destruct (sort_three_median actual1 actual2 actual3) as (median & Hsecond & Hmedian).
  exists median. split; [exact Hsecond |]. split; [exact Hmedian |].
  subst actual1 actual2 actual3 max results.
  rewrite (perf_run w cpuSpeed others diff1 diff2 diff3 Hcpus Hcmd).
  cbv zeta. rewrite Hsecond. cbn [fst].
  rewrite <- exceeds_above.
  destruct (exceeds (Some median) _); split; split; congruence.
Qed.

Lemma perf_decides_on_median_witness :
  cpus example_world = [50000%Z]
  /\ fst (shell example_world (ESLINT +:+ "./tests/performance/jshint.js")) = 0%Z
  /\ sort compareNumbers [200; 210; 190]%Q !! 1%nat = Some 200%Q
  /\ fst (target_perf (0, 200000000)%Z (0, 210000000)%Z (0, 190000000)%Z example_world) = Exit 1.
Proof.
  split; [reflexivity |]. split; [reflexivity |]. split; [reflexivity |].
  destruct (perf_decides_on_median example_world 50000 []
              (0, 200000000)%Z (0, 210000000)%Z (0, 190000000)%Z eq_refl eq_refl)
    as (_ & _ & _ & median & Hsecond & _ & Hfail & _).
  apply Hfail.
  vm_compute in Hsecond. injection Hsecond as <-.
  vm_compute. reflexivity.
Defined.

Example perf_median_200_over_150 :
  perf_limit Qred 50000 = Fin 150
  /\ target_perf (0, 200000000)%Z (0, 210000000)%Z (0, 190000000)%Z example_world
     = (Exit 1,
        emit [ Echo "CPU Speed is %d with multiplier %d" [Num (Fin 50000); Num (Fin 7500000)];
               Run "node  bin/eslint.js ./tests/performance/jshint.js";
               Echo "Performance Run #1:  %dms (limit: %dms)" [Num (Fin 200); Num (Fin 150)];
               Run "node  bin/eslint.js ./tests/performance/jshint.js";
               Echo "Performance Run #2:  %dms (limit: %dms)" [Num (Fin 210); Num (Fin 150)];
               Run "node  bin/eslint.js ./tests/performance/jshint.js";
               Echo "Performance Run #3:  %dms (limit: %dms)" [Num (Fin 190); Num (Fin 150)];
               Echo "Performance budget exceeded: %dms (limit: %dms)" [Num (Fin 190); Num (Fin 150)] ]
             example_world).
Proof. split; vm_compute; reflexivity. Qed.

Example perf_median_100_under_150 :
  sort compareNumbers [100; 120; 90]%Q !! 1%nat = Some 100%Q
  /\ fst (target_perf (0, 100000000)%Z (0, 120000000)%Z (0, 90000000)%Z example_world) = Done tt.
Proof. split; vm_compute; reflexivity. Qed.

(** The last line of the gate carries the duration of the third run. *)
Lemma perf_report_carries_third_run
    (w : world) (cpuSpeed : Z) (others : list Z) (diff1 diff2 diff3 : Z * Z) :
  cpus w = cpuSpeed :: others ->
  fst (shell w (ESLINT +:+ "./tests/performance/jshint.js")) = 0%Z ->
  exists fmt,
    last (out (snd (target_perf diff1 diff2 diff3 w)))
    = Some (Echo fmt [Num (Fin (milliseconds (round w) diff3)); Num (perf_limit (round w) cpuSpeed)]).
Proof.
  intros Hcpus Hcmd. rewrite (perf_run w cpuSpeed others diff1 diff2 diff3 Hcpus Hcmd).
  eexists. cbn [snd emit out]. rewrite last_app. reflexivity.
Qed.

(** C6 (the code departs from it): with runs of 200, 210 and 100 ms and a
    limit of 150 ms the median is 200 ms and the gate fails, but the line
    that reports the failure carries 100 ms, the duration of the third
    run; with runs of 100, 90 and 400 ms the median is 100 ms and the gate
    passes, and the line that reports it carries 400 ms. *)
Theorem perf_report_is_not_the_median :
  (sort compareNumbers [200; 210; 100]%Q !! 1%nat = Some 200%Q
   /\ fst (target_perf (0, 200000000)%Z (0, 210000000)%Z (0, 100000000)%Z example_world) = Exit 1
   /\ last (out (snd (target_perf (0, 200000000)%Z (0, 210000000)%Z (0, 100000000)%Z example_world)))
      = Some (Echo "Performance budget exceeded: %dms (limit: %dms)" [Num (Fin 100); Num (Fin 150)]))
  /\ (sort compareNumbers [100; 90; 400]%Q !! 1%nat = Some 100%Q
      /\ fst (target_perf (0, 100000000)%Z (0, 90000000)%Z (0, 400000000)%Z example_world) = Done tt
      /\ last (out (snd (target_perf (0, 100000000)%Z (0, 90000000)%Z (0, 400000000)%Z example_world)))
         = Some (Echo "Performance budget ok:  %dms (limit: %dms)" [Num (Fin 400); Num (Fin 150)])).
Proof. repeat split; vm_compute; reflexivity. Qed.

(** ** The changelog *)

Lemma set_files_emit (f : gmap string node -> gmap string node) (evs : list event) (w : world) :
  set_files f (emit evs w) = emit evs (set_files f w).
Proof. reflexivity. Qed.

Lemma set_files_set_files (f g : gmap string node -> gmap string node) (w : world) :
  set_files f (set_files g w) = set_files (fun fs => f (g fs)) w.
Proof. reflexivity. Qed.

Lemma bind_to {B} (text p : string) (k : unit -> M B) (w : world) :
  files w !! shelljs.key p <> Some Dir ->
  bind (shelljs.to text p) k w = k tt (set_files (insert (shelljs.key p) (File text)) w).
Proof.
  intros H. unfold bind, shelljs.to.
  destruct (files w !! shelljs.key p) as [[t|]|]; [reflexivity | contradiction | reflexivity].
Qed.

Lemma bind_toEnd {B} (old text p : string) (k : unit -> M B) (w : world) :
  files w !! shelljs.key p = Some (File old) ->
  bind (shelljs.toEnd text p) k w
  = k tt (set_files (insert (shelljs.key p) (File (old +:+ text))) w).
Proof. intros H. unfold bind, shelljs.toEnd. now rewrite H. Qed.

Lemma bind_cat_two {B} (a b ta tb : string) (k : string -> M B) (w : world) :
  files w !! shelljs.key a = Some (File ta) ->
  files w !! shelljs.key b = Some (File tb) ->
  bind (shelljs.cat [a; b]) k w = k (ta +:+ nl +:+ tb) w.
Proof.
  intros Ha Hb. unfold bind, shelljs.cat, shelljs.read_all, shelljs.contents.
  now rewrite Ha, Hb.
Qed.

Lemma bind_rm {B} (p t : string) (k : unit -> M B) (w : world) :
  files w !! shelljs.key p = Some (File t) ->
  bind (shelljs.rm p) k w = k tt (set_files (delete (shelljs.key p)) w).
Proof. intros H. unfold bind, shelljs.rm. now rewrite H. Qed.

Lemma bind_mv {B} (a b t : string) (k : unit -> M B) (w : world) :
  files w !! shelljs.key a = Some (File t) ->
  files w !! shelljs.key b = None ->
  bind (shelljs.mv a b) k w
  = k tt (set_files (fun fs => <[shelljs.key b := File t]> (delete (shelljs.key a) fs)) w).
Proof. intros Ha Hb. unfold bind, shelljs.mv. now rewrite Ha, Hb. Qed.

Lemma slice_last_two {A} (earlier : list A) (a b : A) :
  JS.slice (earlier ++ [a; b]) (Z.of_nat (List.length (earlier ++ [a; b])) - 2) = [a; b].
Proof.
  unfold JS.slice. rewrite length_app. cbn [List.length].
  destruct (Z.ltb_spec (Z.of_nat (List.length earlier + 2) - 2) 0); [lia |].
  replace (Z.to_nat _) with (List.length earlier) by lia.
  apply drop_app_length.
Qed.

Lemma unlines_cons (line : string) (lines : list string) :
  unlines (line :: lines) = line +:+ nl +:+ unlines lines.
Proof. reflexivity. Qed.

Lemma unlines_snoc (lines : list string) (line : string) :
  unlines (lines ++ [line]) = unlines lines +:+ line +:+ nl.
Proof.
  induction lines as [|x lines IH]; cbn [app].
  - rewrite unlines_cons. cbn [unlines fold_right]. now rewrite append_empty_r.
  - now rewrite !unlines_cons, IH, !append_assoc.
Qed.

Lemma join_cons (sep x y : string) (rest : list string) :
  JS.join sep (x :: y :: rest) = x +:+ sep +:+ JS.join sep (y :: rest).
Proof. reflexivity. Qed.

Lemma join_snoc_empty (lines : list string) :
  JS.join nl (lines ++ [EmptyString]) = unlines lines.
Proof.
  induction lines as [|line rest IH]; [reflexivity |].
  rewrite unlines_cons, <- IH. cbn [app].
  destruct rest; apply join_cons.
Qed.

Lemma changelog_text (tag timestamp old : string) (entries : list string) :
  ((tag +:+ " - " +:+ timestamp +:+ nl)
     +:+ JS.join nl (EmptyString :: entries ++ [EmptyString])) +:+ nl +:+ old
  = changelog_block tag timestamp entries +:+ old.
Proof.
  unfold changelog_block.
  assert (Hjoin : JS.join nl (EmptyString :: entries ++ [EmptyString])
                  = nl +:+ unlines entries).
  { rewrite <- join_snoc_empty. destruct entries; apply join_cons. }
  rewrite Hjoin, !unlines_cons, unlines_snoc.
  repeat (progress (unfold_append; rewrite ?append_assoc)). reflexivity.
Qed.

Lemma bind_dateformat {B} (mask : option string) (k : string -> M B) (w : world) :
  bind (dateformat mask) k w = k (today w mask) w.
Proof. reflexivity. Qed.

Lemma files_emit (evs : list event) (w : world) : files (emit evs w) = files w.
Proof. reflexivity. Qed.

Lemma files_set_files (f : gmap string node -> gmap string node) (w : world) :
  files (set_files f w) = f (files w).
Proof. reflexivity. Qed.

Lemma shell_emit (evs : list event) (w : world) : shell (emit evs w) = shell w.
Proof. reflexivity. Qed.

Lemma shell_set_files (f : gmap string node -> gmap string node) (w : world) :
  shell (set_files f w) = shell w.
Proof. reflexivity. Qed.

Lemma today_emit (evs : list event) (w : world) : today (emit evs w) = today w.
Proof. reflexivity. Qed.

Lemma today_set_files (f : gmap string node -> gmap string node) (w : world) :
  today (set_files f w) = today w.
Proof. reflexivity. Qed.

Lemma set_files_ext (f g : gmap string node -> gmap string node) (w : world) :
  f (files w) = g (files w) -> set_files f w = set_files g w.
Proof. unfold set_files. now intros ->. Qed.

(** A world is kept in the form [emit evs (set_files f w)]. *)
Ltac tidy_world :=
  rewrite ?set_files_emit, ?emit_emit, ?set_files_set_files;
  rewrite ?shell_emit, ?shell_set_files, ?today_emit, ?today_set_files.

Ltac lookup_files :=
  rewrite ?files_emit, ?files_set_files; cbv beta;
  repeat (rewrite lookup_insert || rewrite lookup_delete);
  repeat (case_decide; try discriminate);
  try done.

Lemma key_CHANGELOG_tmp : shelljs.key "CHANGELOG.tmp" = "CHANGELOG.tmp".
Proof. reflexivity. Qed.

Lemma key_CHANGELOG_md : shelljs.key "CHANGELOG.md" = "CHANGELOG.md".
Proof. reflexivity. Qed.

Lemma key_CHANGELOG_md_tmp : shelljs.key "CHANGELOG.md.tmp" = "CHANGELOG.md.tmp".
Proof. reflexivity. Qed.

Ltac changelog_keys :=
  rewrite ?key_CHANGELOG_tmp, ?key_CHANGELOG_md_tmp, ?key_CHANGELOG_md.

(** What [target.changelog] does when there are two tags or more, the
    changelog exists, and the commands succeed. *)
Lemma changelog_run (w : world) (tagsOutput logOutput old : string)
    (earlier : list string) (older newer : string) :
  shell w "git tag" = (0%Z, tagsOutput) ->
  JS.split JS.is_space (JS.trim tagsOutput) = earlier ++ [older; newer] ->
  shell w (log_command older newer) = (0%Z, logOutput) ->
  fst (shell w "git add CHANGELOG.md") = 0%Z ->
  fst (shell w "git commit --amend --no-edit") = 0%Z ->
  files w !! "CHANGELOG.md" = Some (File old) ->
  files w !! "CHANGELOG.tmp" <> Some Dir ->
  files w !! "CHANGELOG.md.tmp" <> Some Dir ->
  let entries := List.filter logFilter (JS.split JS.is_newline logOutput) in
  let block := changelog_block newer (today w (Some "mmmm d, yyyy")) entries in
  target_changelog w
  = (Done tt,
     emit [Run "git tag"; Run (log_command older newer);
           Run "git add CHANGELOG.md"; Run "git commit --amend --no-edit"]
       (set_files (fun fs => <["CHANGELOG.md" := File (block +:+ old)]>
                               (delete "CHANGELOG.md.tmp" (delete "CHANGELOG.tmp" fs))) w)).
Proof.
  intros Htag Htags Hlog Hadd Hcommit Hold Htmp Hmdtmp entries block.
  unfold target_changelog.
  rewrite bind_exec_ok by now rewrite Htag.
  rewrite Htag. cbn [snd]. cbv zeta. rewrite Htags, slice_last_two.
  rewrite bind_dateformat. tidy_world.
  change ([older; newer] !! 1%nat) with (Some newer). cbn [JS.to_string].
  change (JS.join ".." [older; newer]) with (older +:+ ".." +:+ newer).
  fold (log_command older newer).
  rewrite bind_to by (changelog_keys; lookup_files).
  changelog_keys. tidy_world.
  rewrite bind_exec_ok by (tidy_world; now rewrite Hlog).
  tidy_world. rewrite Hlog. cbn [snd]. fold entries.
  erewrite bind_toEnd by (changelog_keys; lookup_files).
  changelog_keys. tidy_world.
  erewrite bind_cat_two; [| changelog_keys; lookup_files | changelog_keys; lookup_files].
  rewrite changelog_text. fold block.
  rewrite bind_to by (changelog_keys; lookup_files).
  changelog_keys. tidy_world.
  erewrite bind_rm by (changelog_keys; lookup_files).
  changelog_keys. tidy_world.
  erewrite bind_rm by (changelog_keys; lookup_files).
  changelog_keys. tidy_world.
  erewrite bind_mv; [| changelog_keys; lookup_files | changelog_keys; lookup_files].
  changelog_keys. tidy_world.
  rewrite bind_exec_ok by (tidy_world; exact Hadd).
  tidy_world.
  rewrite bind_exec_ok by (tidy_world; exact Hcommit).
  tidy_world. rewrite ret_run. cbn [app].
  f_equal. f_equal. apply set_files_ext.
  apply map_eq. intros p.
  repeat (rewrite lookup_insert || rewrite lookup_delete).
  repeat case_decide; try congruence; try discriminate; reflexivity.
Qed.

(** C4 (as amended): the block starts with a header line made of the
    newer of the two most recent tags (the last tag listed) and the date
    of the day, in the format [mmmm d, yyyy]; then come an empty line, the
    log lines that pass the filter, each on a line of its own, and an
    empty line.  The block stands at the head of the new changelog. *)
Theorem changelog_block_has_newer_tag (w : world) (tagsOutput logOutput old : string)
    (earlier : list string) (older newer : string) :
  shell w "git tag" = (0%Z, tagsOutput) ->
  JS.split JS.is_space (JS.trim tagsOutput) = earlier ++ [older; newer] ->
  shell w (log_command older newer) = (0%Z, logOutput) ->
  fst (shell w "git add CHANGELOG.md") = 0%Z ->
  fst (shell w "git commit --amend --no-edit") = 0%Z ->
  files w !! "CHANGELOG.md" = Some (File old) ->
  files w !! "CHANGELOG.tmp" <> Some Dir ->
  files w !! "CHANGELOG.md.tmp" <> Some Dir ->
  let entries := List.filter logFilter (JS.split JS.is_newline logOutput) in
  let header := newer +:+ " - " +:+ today w (Some "mmmm d, yyyy") in
  fst (target_changelog w) = Done tt
  /\ file_text (snd (target_changelog w)) "CHANGELOG.md"
     = Some (unlines (header :: EmptyString :: entries ++ [EmptyString]) +:+ old).
Proof.
  intros Htag Htags Hlog Hadd Hcommit Hold Htmp Hmdtmp entries header.
  rewrite (changelog_run w tagsOutput logOutput old earlier older newer) by assumption.
  split; [reflexivity |].
  unfold file_text, shelljs.contents.
  change (shelljs.key "CHANGELOG.md") with "CHANGELOG.md".
  cbn [snd files emit set_files]. now rewrite lookup_insert_eq.
Qed.

Lemma changelog_block_has_newer_tag_witness :
  JS.split JS.is_space (JS.trim (snd (shell example_world "git tag"))) = ["v1.0.0"; "v1.1.0"]
  /\ fst (target_changelog example_world) = Done tt
  /\ file_text (snd (target_changelog example_world)) "CHANGELOG.md"
     = Some (unlines ["v1.1.0 - February 12, 2014"; ""; "* 1.1.0 (N)"; "* Fix: thing (M)"; ""]
             +:+ unlines ["v1.0.0 - January 1, 2014"; ""; "* 1.0.0 (N)"]).
Proof.
  split; [reflexivity |].
  apply (changelog_block_has_newer_tag example_world
           ("v1.0.0" +:+ nl +:+ "v1.1.0" +:+ nl)
           ("* 1.1.0 (N)" +:+ nl +:+ "* Merge pull request #1 from x/y (N)" +:+ nl +:+ "* Fix: thing (M)")
           (unlines ["v1.0.0 - January 1, 2014"; ""; "* 1.0.0 (N)"])
           [] "v1.0.0" "v1.1.0");
    try reflexivity; vm_compute; discriminate.
Defined.

(** C4 (as stated, refuted): with the tags [v1.0.0] and [v1.1.0] the header
    of the block is made of [v1.1.0], the newer of the two, and not of
    [v1.0.0], the older. *)
Lemma changelog_header_is_not_the_older_tag :
  JS.split JS.is_space (JS.trim (snd (shell example_world "git tag"))) = ["v1.0.0"; "v1.1.0"]
  /\ (exists rest,
         file_text (snd (target_changelog example_world)) "CHANGELOG.md"
         = Some ("v1.1.0 - February 12, 2014" +:+ nl +:+ rest))
  /\ ~ (exists rest,
           file_text (snd (target_changelog example_world)) "CHANGELOG.md"
           = Some ("v1.0.0 - February 12, 2014" +:+ nl +:+ rest)).
Proof.
  split; [reflexivity |]. split.
  - eexists. vm_compute. reflexivity.
  - intros [rest H]. vm_compute in H. discriminate H.
Qed.

Lemma is_newline_eqb (c : ascii) : JS.is_newline c = Ascii.eqb (ascii_of_nat 10) c.
Proof. destruct c as [[] [] [] [] [] [] [] []]; reflexivity. Qed.

Lemma split_one_line (line : string) :
  has_char (ascii_of_nat 10) line = false -> JS.split JS.is_newline line = [line].
Proof.
  induction line as [|c line IH]; cbn [has_char JS.split]; [reflexivity |].
  intros H. apply orb_false_iff in H as [Hc Hline].
  now rewrite is_newline_eqb, Hc, (IH Hline).
Qed.

Lemma split_first_line (line text : string) :
  has_char (ascii_of_nat 10) line = false ->
  JS.split JS.is_newline (line +:+ nl +:+ text) = line :: JS.split JS.is_newline text.
Proof.
  induction line as [|c line IH]; unfold_append; cbn [has_char].
  - reflexivity.
  - intros H. apply orb_false_iff in H as [Hc Hline].
    cbn [JS.split]. now rewrite is_newline_eqb, Hc, (IH Hline).
Qed.

Lemma split_join_lines (lines : list string) :
  lines <> [] ->
  Forall (fun line => has_char (ascii_of_nat 10) line = false) lines ->
  JS.split JS.is_newline (JS.join nl lines) = lines.
Proof.
  induction lines as [|line rest IH]; [congruence |].
  intros _ Hall. inversion Hall as [|? ? Hline Hrest]; subst.
  destruct rest as [|next rest].
  - now apply split_one_line.
  - rewrite join_cons, split_first_line by assumption.
    now rewrite IH.
Qed.

(** C5: when the log consists of one line that carries one of the two
    merge phrases and of two lines that carry neither, the block holds
    exactly the two other lines, in their order, and not the line with the
    phrase; the new changelog is the block followed by the former
    changelog, unchanged. *)
Theorem changelog_keeps_the_two_other_commits (w : world) (tagsOutput old : string)
    (earlier : list string) (older newer : string)
    (before after : list string) (merge first second : string) :
  shell w "git tag" = (0%Z, tagsOutput) ->
  JS.split JS.is_space (JS.trim tagsOutput) = earlier ++ [older; newer] ->
  shell w (log_command older newer) = (0%Z, JS.join nl (before ++ merge :: after)) ->
  fst (shell w "git add CHANGELOG.md") = 0%Z ->
  fst (shell w "git commit --amend --no-edit") = 0%Z ->
  files w !! "CHANGELOG.md" = Some (File old) ->
  files w !! "CHANGELOG.tmp" <> Some Dir ->
  files w !! "CHANGELOG.md.tmp" <> Some Dir ->
  before ++ after = [first; second] ->
  is_merge_line merge = true ->
  is_merge_line first = false ->
  is_merge_line second = false ->
  has_char (ascii_of_nat 10) merge = false ->
  has_char (ascii_of_nat 10) first = false ->
  has_char (ascii_of_nat 10) second = false ->
  let header := newer +:+ " - " +:+ today w (Some "mmmm d, yyyy") in
  file_text (snd (target_changelog w)) "CHANGELOG.md"
  = Some (unlines [header; EmptyString; first; second; EmptyString] +:+ old).
Proof.
  intros Htag Htags Hlog Hadd Hcommit Hold Htmp Hmdtmp Hsplit Hmerge Hfirst Hsecond
    Nmerge Nfirst Nsecond header.
  rewrite (changelog_run w tagsOutput (JS.join nl (before ++ merge :: after)) old
             earlier older newer) by assumption.
  unfold file_text, shelljs.contents.
  change (shelljs.key "CHANGELOG.md") with "CHANGELOG.md".
  cbn [snd files emit set_files]. rewrite lookup_insert_eq. fold header. do 4 f_equal.
  assert (Hlines : JS.split JS.is_newline (JS.join nl (before ++ merge :: after))
                   = before ++ merge :: after).
  { apply split_join_lines; [now destruct before |].
    destruct before as [|b1 [|b2 [|b3 before]]]; cbn [app] in *;
      try discriminate; inversion Hsplit; subst; repeat constructor; assumption. }
  rewrite Hlines.
  assert (Hkeep : logFilter first = true /\ logFilter second = true /\ logFilter merge = false).
  { rewrite !logFilter_merge, Hfirst, Hsecond, Hmerge. auto. }
  destruct Hkeep as (K1 & K2 & K3).
  destruct before as [|b1 [|b2 [|b3 before]]]; cbn [app] in *;
    try discriminate; inversion Hsplit; subst; cbn [List.filter];
    rewrite ?K1, ?K2, ?K3; reflexivity.
Qed.

Lemma changelog_keeps_the_two_other_commits_witness :
  JS.split JS.is_newline (snd (shell example_world (log_command "v1.0.0" "v1.1.0")))
  = ["* 1.1.0 (N)"; "* Merge pull request #1 from x/y (N)"; "* Fix: thing (M)"]
  /\ file_text (snd (target_changelog example_world)) "CHANGELOG.md"
     = Some (unlines ["v1.1.0 - February 12, 2014"; ""; "* 1.1.0 (N)"; "* Fix: thing (M)"; ""]
             +:+ unlines ["v1.0.0 - January 1, 2014"; ""; "* 1.0.0 (N)"]).
Proof.
  split; [reflexivity |].
  apply (changelog_keeps_the_two_other_commits example_world
           ("v1.0.0" +:+ nl +:+ "v1.1.0" +:+ nl)
           (unlines ["v1.0.0 - January 1, 2014"; ""; "* 1.0.0 (N)"])
           [] "v1.0.0" "v1.1.0"
           ["* 1.1.0 (N)"] ["* Fix: thing (M)"] "* Merge pull request #1 from x/y (N)"
           "* 1.1.0 (N)" "* Fix: thing (M)");
    try reflexivity; vm_compute; discriminate.
Defined.

(** C5 (as stated, refuted): the filter goes by the two phrases in the
    line, not by the kind of the commit.  Of a log of one merge commit and
    two ordinary commits, the block keeps the merge commit, whose subject
    is [Merge remote-tracking branch 'origin/master'], and drops the
    ordinary commit whose subject mentions [Merge branch]: its entries are
    not the two ordinary subjects. *)
Lemma changelog_keeps_a_merge_commit_and_drops_an_ordinary_one :
  let ordinary := List.filter (fun c => negb (is_merge_commit c)) mixed_log in
  let old := unlines ["v1.0.0 - January 1, 2014"; ""; "* 1.0.0 (N)"] in
  List.length (List.filter is_merge_commit mixed_log) = 1%nat
  /\ List.length ordinary = 2%nat
  /\ shell mixed_log_world (log_command "v1.0.0" "v1.1.0") = (0%Z, log_output mixed_log)
  /\ fst (target_changelog mixed_log_world) = Done tt
  /\ file_text (snd (target_changelog mixed_log_world)) "CHANGELOG.md"
     = Some (changelog_block "v1.1.0" "February 12, 2014"
               [ "* Merge remote-tracking branch 'origin/master' (N)"; "* Docs: typo (M)" ]
             +:+ old)
  /\ file_text (snd (target_changelog mixed_log_world)) "CHANGELOG.md"
     <> Some (changelog_block "v1.1.0" "February 12, 2014" (log_line <$> ordinary) +:+ old).
Proof.
  cbv zeta.
  assert (Htext : file_text (snd (target_changelog mixed_log_world)) "CHANGELOG.md"
                  = Some (changelog_block "v1.1.0" "February 12, 2014"
                            [ "* Merge remote-tracking branch 'origin/master' (N)";
                              "* Docs: typo (M)" ]
                          +:+ unlines ["v1.0.0 - January 1, 2014"; ""; "* 1.0.0 (N)"]))
    by (vm_compute; reflexivity).
  split; [reflexivity |]. split; [reflexivity |]. split; [vm_compute; reflexivity |].
  split; [vm_compute; reflexivity |]. split; [exact Htext |].
  rewrite Htext. intros H. vm_compute in H. discriminate H.
Qed.

Lemma changelog_block_not_empty (tag timestamp : string) (entries : list string) :
  (0 < String.length (changelog_block tag timestamp entries))%nat.
Proof.
  unfold changelog_block. rewrite unlines_cons, !length_append.
  cbn [nl String.length]. lia.
Qed.

(** C8: the changelog task is not idempotent.  A second run with the same
    tags, the same log and the same date puts the same block before the
    result of the first run: the changelog then starts with two copies of
    the block, and differs from the changelog after one run. *)
Theorem changelog_twice_prepends_twice (w : world) (tagsOutput logOutput old : string)
    (earlier : list string) (older newer : string) :
  shell w "git tag" = (0%Z, tagsOutput) ->
  JS.split JS.is_space (JS.trim tagsOutput) = earlier ++ [older; newer] ->
  shell w (log_command older newer) = (0%Z, logOutput) ->
  fst (shell w "git add CHANGELOG.md") = 0%Z ->
  fst (shell w "git commit --amend --no-edit") = 0%Z ->
  files w !! "CHANGELOG.md" = Some (File old) ->
  files w !! "CHANGELOG.tmp" <> Some Dir ->
  files w !! "CHANGELOG.md.tmp" <> Some Dir ->
  let entries := List.filter logFilter (JS.split JS.is_newline logOutput) in
  let block := changelog_block newer (today w (Some "mmmm d, yyyy")) entries in
  let once := target_changelog w in
  let twice := (target_changelog ;; target_changelog) w in
  file_text (snd once) "CHANGELOG.md" = Some (block +:+ old)
  /\ fst twice = Done tt
  /\ file_text (snd twice) "CHANGELOG.md" = Some (block +:+ block +:+ old)
  /\ file_text (snd twice) "CHANGELOG.md" <> file_text (snd once) "CHANGELOG.md".
Proof.
  intros Htag Htags Hlog Hadd Hcommit Hold Htmp Hmdtmp entries block once twice.
  pose proof (changelog_run w tagsOutput logOutput old earlier older newer
                Htag Htags Hlog Hadd Hcommit Hold Htmp Hmdtmp) as Hfirst.
  cbv zeta in Hfirst. fold entries block in Hfirst.
  set (w1 := emit _ (set_files _ w)) in Hfirst.
  assert (Hsecond := changelog_run w1 tagsOutput logOutput (block +:+ old) earlier older newer
                       Htag Htags Hlog Hadd Hcommit).
  cbv zeta in Hsecond. change (today w1) with (today w) in Hsecond.
  fold entries block in Hsecond.
  assert (Hlookup : forall w0 text,
             file_text (emit [Run "git tag"; Run (log_command older newer);
                              Run "git add CHANGELOG.md"; Run "git commit --amend --no-edit"]
                          (set_files (fun fs => <["CHANGELOG.md" := File text]>
                                                  (delete "CHANGELOG.md.tmp" (delete "CHANGELOG.tmp" fs)))
                             w0)) "CHANGELOG.md" = Some text).
  { intros w0 text. unfold file_text, shelljs.contents.
    change (shelljs.key "CHANGELOG.md") with "CHANGELOG.md".
    cbn [files emit set_files]. now rewrite lookup_insert_eq. }
  assert (Honce : file_text (snd once) "CHANGELOG.md" = Some (block +:+ old)).
  { unfold once. rewrite Hfirst. apply Hlookup. }
  assert (Htwice : twice = (Done tt, emit [Run "git tag"; Run (log_command older newer);
                              Run "git add CHANGELOG.md"; Run "git commit --amend --no-edit"]
                          (set_files (fun fs => <["CHANGELOG.md" := File (block +:+ block +:+ old)]>
                                                  (delete "CHANGELOG.md.tmp" (delete "CHANGELOG.tmp" fs)))
                             w1))).
  { unfold twice, bind. rewrite Hfirst. apply Hsecond; subst w1; lookup_files. }
  split; [exact Honce |]. split; [now rewrite Htwice |].
  assert (Hboth : file_text (snd twice) "CHANGELOG.md" = Some (block +:+ block +:+ old)).
  { rewrite Htwice. apply Hlookup. }
  split; [exact Hboth |].
  rewrite Hboth, Honce. intros Heq. injection Heq as Heq.
  apply (f_equal String.length) in Heq. rewrite !length_append in Heq.
  pose proof (changelog_block_not_empty newer (today w (Some "mmmm d, yyyy")) entries).
  fold block in H. lia.
Qed.

Lemma changelog_twice_prepends_twice_witness :
  file_text (snd ((target_changelog ;; target_changelog) example_world)) "CHANGELOG.md"
  = Some (unlines ["v1.1.0 - February 12, 2014"; ""; "* 1.1.0 (N)"; "* Fix: thing (M)"; ""]
          +:+ unlines ["v1.1.0 - February 12, 2014"; ""; "* 1.1.0 (N)"; "* Fix: thing (M)"; ""]
          +:+ unlines ["v1.0.0 - January 1, 2014"; ""; "* 1.0.0 (N)"])
  /\ file_text (snd ((target_changelog ;; target_changelog) example_world)) "CHANGELOG.md"
     <> file_text (snd (target_changelog example_world)) "CHANGELOG.md".
Proof.
  assert (Hfree : forall p, files example_world !! p = None -> files example_world !! p <> Some Dir)
    by (intros p ->; discriminate).
  pose proof (changelog_twice_prepends_twice example_world
                ("v1.0.0" +:+ nl +:+ "v1.1.0" +:+ nl)
                ("* 1.1.0 (N)" +:+ nl +:+ "* Merge pull request #1 from x/y (N)" +:+ nl +:+ "* Fix: thing (M)")
                (unlines ["v1.0.0 - January 1, 2014"; ""; "* 1.0.0 (N)"])
                [] "v1.0.0" "v1.1.0"
                eq_refl eq_refl eq_refl eq_refl eq_refl eq_refl
                (Hfree "CHANGELOG.tmp" eq_refl) (Hfree "CHANGELOG.md.tmp" eq_refl)) as H.
  cbv zeta in H. destruct H as (_ & _ & Htwice & Hdiffer).
  split; [exact Htwice | exact Hdiffer].
Defined.

(** ** The release sequence *)

Lemma only_emits_silent {A} (P : event -> Prop) (m : M A) :
  (forall w, out (snd (m w)) = out w) -> only_emits P m.
Proof. intros H w. exists []. now rewrite H, app_nil_r. Qed.

Lemma only_emits_ret {A} (P : event -> Prop) (a : A) : only_emits P (ret a).
Proof. now apply only_emits_silent. Qed.

Lemma only_emits_bind {A B} (P : event -> Prop) (m : M A) (k : A -> M B) :
  only_emits P m -> (forall a, only_emits P (k a)) -> only_emits P (bind m k).
Proof.
  intros Hm Hk w. unfold bind. destruct (Hm w) as (evs & Hout & Hevs).
  destruct (m w) as [[a|c|e] w1]; cbn [snd] in *; [| now exists evs ..].
  destruct (Hk a w1) as (evs' & Hout' & Hevs').
  exists (evs ++ evs'). rewrite Hout', Hout, app_assoc. split; [reflexivity |].
  now apply Forall_app.
Qed.

Lemma only_emits_read {A} (P : event -> Prop) (f : world -> A) : only_emits P (read f).
Proof. now apply only_emits_silent. Qed.

Lemma only_emits_exit {A} (P : event -> Prop) (code : Z) : only_emits P (exit (A:=A) code).
Proof. now apply only_emits_silent. Qed.

Lemma only_emits_log {A} (P : event -> Prop) (e : event) (m : M A) :
  P e -> (forall w, m w = (fst (m w), emit [e] w)) -> only_emits P m.
Proof.
  intros He Hm w. exists [e]. rewrite Hm. split; [reflexivity | now constructor].
Qed.

Lemma only_emits_exec (P : event -> Prop) (cmd : string) :
  P (Run cmd) -> only_emits P (shelljs.exec cmd).
Proof.
  intros H. apply (only_emits_log P (Run cmd)); [exact H |].
  intros w. now rewrite exec_run.
Qed.

Lemma only_emits_nodeCLI (P : event -> Prop) (name : string) (args : list string) :
  P (Run (JS.join " " (name :: args))) -> only_emits P (nodeCLI.exec name args).
Proof. apply only_emits_exec. Qed.

Lemma only_emits_echo (P : event -> Prop) (fmt : string) (args : list arg) :
  P (Echo fmt args) -> only_emits P (shelljs.echo fmt args).
Proof. intros H. now apply (only_emits_log P (Echo fmt args)). Qed.

Lemma only_emits_error (P : event -> Prop) (fmt : string) (args : list arg) :
  P (ConsoleError fmt args) -> only_emits P (console.error fmt args).
Proof. intros H. now apply (only_emits_log P (ConsoleError fmt args)). Qed.

Lemma only_emits_if {A} (P : event -> Prop) (b : bool) (m1 m2 : M A) :
  only_emits P m1 -> only_emits P m2 -> only_emits P (if b then m1 else m2).
Proof. now destruct b. Qed.

Lemma only_emits_when (P : event -> Prop) (b : bool) (m : M unit) :
  only_emits P m -> only_emits P (when b m).
Proof. intros H. destruct b; [exact H | apply only_emits_ret]. Qed.

Lemma only_emits_forEach {A} (P : event -> Prop) (l : list A) (body : A -> M unit) :
  (forall x, only_emits P (body x)) -> only_emits P (forEach l body).
Proof.
  intros H. induction l as [|x l IH]; cbn [forEach]; [apply only_emits_ret |].
  apply only_emits_bind; [apply H | intros _; exact IH].
Qed.

Ltac silent_op :=
  apply only_emits_silent; intros w;
  repeat match goal with
         | |- context [match ?x with _ => _ end] => destruct x
         end; reflexivity.

Lemma only_emits_test (P : event -> Prop) (flag p : string) : only_emits P (shelljs.test flag p).
Proof. now apply only_emits_silent. Qed.

Lemma only_emits_find (P : event -> Prop) (d : string) : only_emits P (shelljs.find d).
Proof. now apply only_emits_silent. Qed.

Lemma only_emits_cat (P : event -> Prop) (ps : list string) : only_emits P (shelljs.cat ps).
Proof. unfold shelljs.cat. silent_op. Qed.

Lemma only_emits_to (P : event -> Prop) (text p : string) : only_emits P (shelljs.to text p).
Proof. unfold shelljs.to. silent_op. Qed.

Lemma only_emits_rm (P : event -> Prop) (p : string) : only_emits P (shelljs.rm p).
Proof. unfold shelljs.rm. silent_op. Qed.

Lemma only_emits_rm_r (P : event -> Prop) (p : string) : only_emits P (shelljs.rm_r p).
Proof. unfold shelljs.rm_r. silent_op. Qed.

Lemma only_emits_mkdir (P : event -> Prop) (p : string) : only_emits P (shelljs.mkdir p).
Proof. unfold shelljs.mkdir. silent_op. Qed.

Lemma only_emits_cp_r (P : event -> Prop) (force : bool) (src dst : string) :
  only_emits P (shelljs.cp_r force src dst).
Proof. unfold shelljs.cp_r. silent_op. Qed.

Lemma only_emits_fileSet (P : event -> Prop) (dir extension : string) :
  only_emits P (fileSet dir extension).
Proof. now apply only_emits_silent. Qed.

(** The steps of a task, one after the other; what is left are the tasks
    and helpers that the task calls. *)
Ltac emits_step :=
  lazymatch goal with
  | |- only_emits _ (bind _ _) => apply only_emits_bind; [| intros ?]
  | |- only_emits _ (ret _) => apply only_emits_ret
  | |- only_emits _ (read _) => apply only_emits_read
  | |- only_emits _ (exit _) => apply only_emits_exit
  | |- only_emits _ (when _ _) => apply only_emits_when
  | |- only_emits _ (if _ then _ else _) => apply only_emits_if
  | |- only_emits _ (shelljs.test _ _) => apply only_emits_test
  | |- only_emits _ (shelljs.find _) => apply only_emits_find
  | |- only_emits _ (shelljs.cat _) => apply only_emits_cat
  | |- only_emits _ (shelljs.to _ _) => apply only_emits_to
  | |- only_emits _ (shelljs.rm _) => apply only_emits_rm
  | |- only_emits _ (shelljs.rm_r _) => apply only_emits_rm_r
  | |- only_emits _ (shelljs.mkdir _) => apply only_emits_mkdir
  | |- only_emits _ (shelljs.cp_r _ _ _) => apply only_emits_cp_r
  | |- only_emits _ (fileSet _ _) => apply only_emits_fileSet
  | |- only_emits _ (shelljs.echo _ _) => apply only_emits_echo; exact I
  | |- only_emits _ (console.error _ _) => apply only_emits_error; exact I
  | |- only_emits _ (shelljs.exec _) => apply only_emits_exec; vm_compute; reflexivity
  | |- only_emits _ (nodeCLI.exec _ _) => apply only_emits_nodeCLI; vm_compute; reflexivity
  end.

Ltac emits := repeat emits_step.

Lemma checkRuleFile_harmless (index : string) (conf : gmap string Z) (filename : string) (errors : nat) :
  only_emits harmless (checkRuleFile index conf filename errors).
Proof. unfold checkRuleFile. emits. Qed.

Lemma checkRuleFiles_loop_harmless (index : string) (conf : gmap string Z)
    (ruleFiles : list string) (errors : nat) :
  only_emits harmless (checkRuleFiles_loop index conf ruleFiles errors).
Proof.
  revert errors. induction ruleFiles as [|filename rest IH]; intros errors;
    cbn [checkRuleFiles_loop]; emits.
  - apply checkRuleFile_harmless.
  - apply IH.
Qed.

Lemma checkRuleFiles_harmless : only_emits harmless target_checkRuleFiles.
Proof. unfold target_checkRuleFiles. emits. apply checkRuleFiles_loop_harmless. Qed.

Lemma generateRulesIndex_harmless (basedir : string) : only_emits harmless (generateRulesIndex basedir).
Proof. unfold generateRulesIndex. emits. Qed.

Lemma browserify_harmless : only_emits harmless target_browserify.
Proof. unfold target_browserify. emits. apply generateRulesIndex_harmless. Qed.

Lemma lint_harmless (G : settings) : only_emits harmless (target_lint G).
Proof. unfold target_lint. emits. Qed.

Lemma test_harmless (G : settings) : only_emits harmless (target_test G).
Proof.
  unfold target_test. emits.
  - apply lint_harmless.
  - apply checkRuleFiles_harmless.
  - apply browserify_harmless.
Qed.

Lemma only_emits_weaken {A} (P Q : event -> Prop) (m : M A) :
  (forall e, P e -> Q e) -> only_emits P m -> only_emits Q m.
Proof.
  intros HPQ Hm w. destruct (Hm w) as (evs & Hout & Hevs).
  exists evs. split; [exact Hout |]. eapply Forall_impl; eauto.
Qed.

Lemma harmless_before_push (e : event) : harmless e -> before_push e.
Proof.
  intros H. split; intros ->; discriminate H.
Qed.

Lemma run_before_push (cmd : string) :
  String.eqb cmd "git push origin master --tags" = false ->
  String.eqb cmd "npm publish" = false ->
  before_push (Run cmd).
Proof.
  intros H1 H2. apply String.eqb_neq in H1, H2. split; congruence.
Qed.

Lemma line_before_push (e : event) : is_line e -> before_push e.
Proof. destruct e; [contradiction | split; discriminate ..]. Qed.

Lemma test_before_push (G : settings) : only_emits before_push (target_test G).
Proof. apply (only_emits_weaken harmless); [apply harmless_before_push | apply test_harmless]. Qed.

Lemma only_emits_anything {A} (m : M A) (w : world) :
  only_emits (fun _ => True) m -> exists evs, out (snd (m w)) = out w ++ evs.
Proof. intros H. destruct (H w) as (evs & Hout & _). eauto. Qed.

Lemma only_emits_dateformat (P : event -> Prop) (mask : option string) :
  only_emits P (dateformat mask).
Proof. now apply only_emits_silent. Qed.

Lemma only_emits_toEnd (P : event -> Prop) (text p : string) : only_emits P (shelljs.toEnd text p).
Proof. unfold shelljs.toEnd. silent_op. Qed.

Lemma only_emits_mv (P : event -> Prop) (a b : string) : only_emits P (shelljs.mv a b).
Proof. unfold shelljs.mv. silent_op. Qed.

Lemma only_emits_cd (P : event -> Prop) (d : string) : only_emits P (shelljs.cd d).
Proof. now apply only_emits_silent. Qed.

Lemma only_emits_pwd (P : event -> Prop) : only_emits P shelljs.pwd.
Proof. now apply only_emits_silent. Qed.

(** The steps of a task; [tac] shows that a line or a command is allowed. *)
Ltac emits_by tac :=
  repeat lazymatch goal with
    | |- only_emits _ (bind _ _) => apply only_emits_bind; [| intros ?]
    | |- only_emits _ (ret _) => apply only_emits_ret
    | |- only_emits _ (read _) => apply only_emits_read
    | |- only_emits _ (exit _) => apply only_emits_exit
    | |- only_emits _ (when _ _) => apply only_emits_when
    | |- only_emits _ (if _ then _ else _) => apply only_emits_if
    | |- only_emits _ (forEach _ _) => apply only_emits_forEach; intros ?
    | |- only_emits _ (shelljs.test _ _) => apply only_emits_test
    | |- only_emits _ (shelljs.find _) => apply only_emits_find
    | |- only_emits _ (shelljs.cat _) => apply only_emits_cat
    | |- only_emits _ (shelljs.to _ _) => apply only_emits_to
    | |- only_emits _ (shelljs.toEnd _ _) => apply only_emits_toEnd
    | |- only_emits _ (shelljs.rm _) => apply only_emits_rm
    | |- only_emits _ (shelljs.rm_r _) => apply only_emits_rm_r
    | |- only_emits _ (shelljs.mv _ _) => apply only_emits_mv
    | |- only_emits _ (shelljs.mkdir _) => apply only_emits_mkdir
    | |- only_emits _ (shelljs.cp_r _ _ _) => apply only_emits_cp_r
    | |- only_emits _ (shelljs.cd _) => apply only_emits_cd
    | |- only_emits _ shelljs.pwd => apply only_emits_pwd
    | |- only_emits _ (dateformat _) => apply only_emits_dateformat
    | |- only_emits _ (fileSet _ _) => apply only_emits_fileSet
    | |- only_emits _ (shelljs.echo _ _) => apply only_emits_echo; tac
    | |- only_emits _ (console.error _ _) => apply only_emits_error; tac
    | |- only_emits _ (shelljs.exec _) => apply only_emits_exec; tac
    | |- only_emits _ (nodeCLI.exec _ _) => apply only_emits_nodeCLI; tac
    end.

Lemma release_as_steps (G : settings) (type : string) (w : world) :
  release G type w = snd (run_steps (release_steps G type) w).
Proof.
  unfold release, release_steps. cbn [run_steps]. unfold bind.
  destruct (target_test G w) as [[[]|c|e] w1]; cbn [fst snd]; [| reflexivity ..].
  destruct (shelljs.exec ("npm version " +:+ type) w1) as [[s2|c|e] w2];
    cbn [fst snd ret]; [| reflexivity ..].
  destruct (target_changelog w2) as [[[]|c|e] w3]; cbn [fst snd]; [| reflexivity ..].
  destruct (shelljs.exec "git push origin master --tags" w3) as [[s4|c|e] w4];
    cbn [fst snd ret]; [| reflexivity ..].
  destruct (shelljs.exec "npm publish" w4) as [[s5|c|e] w5];
    cbn [fst snd ret]; [| reflexivity ..].
  destruct (target_gensite w5) as [[[]|c|e] w6]; reflexivity.
Qed.

Lemma run_steps_in_order (steps : list (stage * M unit)) (w : world) :
  exists n, fst (run_steps steps w) = take n (fst <$> steps)
            /\ (steps <> [] -> (1 <= n)%nat).
Proof.
  revert w. induction steps as [|[s m] rest IH]; intros w.
  - exists 0%nat. split; [reflexivity | congruence].
  - cbn [run_steps]. destruct (m w) as [[[]|c|e] w1].
    + destruct (IH w1) as (n & Hn & _). exists (S n). cbn [fst fmap list_fmap take].
      rewrite Hn. split; [reflexivity | lia].
    + exists 1%nat. split; [reflexivity | lia].
    + exists 1%nat. split; [reflexivity | lia].
Qed.

Lemma run_steps_first_fails (s : stage) (m : M unit) (rest : list (stage * M unit)) (w : world) :
  failed (fst (m w)) = true ->
  run_steps ((s, m) :: rest) w = ([s], m w).
Proof.
  intros H. cbn [run_steps]. destruct (m w) as [[[]|c|e] w1]; [discriminate | reflexivity ..].
Qed.

Lemma events_since_app (w w' : world) (evs : list event) :
  out w' = out w ++ evs -> events_since w w' = evs.
Proof. intros H. unfold events_since. rewrite H. apply drop_app_length. Qed.

(** Every event of a run of steps is an event of a stage that was
    entered. *)
Lemma run_steps_emits (P : stage -> event -> Prop) (steps : list (stage * M unit)) :
  Forall (fun sm => only_emits (P (fst sm)) (snd sm)) steps ->
  forall w, exists evs,
    out (snd (snd (run_steps steps w))) = out w ++ evs
    /\ Forall (fun e => exists s, In s (fst (run_steps steps w)) /\ P s e) evs.
Proof.
  induction 1 as [|[s m] rest Hm _ IH]; intros w.
  - exists []. cbn [run_steps fst snd]. rewrite app_nil_r. split; [reflexivity | constructor].
  - cbn [run_steps]. cbn [fst snd] in Hm.
    destruct (Hm w) as (evs1 & Hout1 & Hevs1).
    assert (Hhere : Forall (fun e => exists s', In s' [s] /\ P s' e) evs1).
    { eapply Forall_impl; [exact Hevs1 |]. intros e He. exists s. split; [now left | exact He]. }
    destruct (m w) as [[[]|c|e] w1]; cbn [fst snd] in *.
    + destruct (IH w1) as (evs2 & Hout2 & Hevs2).
      exists (evs1 ++ evs2). split; [now rewrite Hout2, Hout1, app_assoc |].
      apply Forall_app. split.
      * eapply Forall_impl; [exact Hevs1 |]. intros e He. exists s. split; [now left | exact He].
      * eapply Forall_impl; [exact Hevs2 |]. intros e (s' & Hin & He).
        exists s'. split; [now right | exact He].
    + exists evs1. split; [exact Hout1 | exact Hhere].
    + exists evs1. split; [exact Hout1 | exact Hhere].
Qed.

(** A stage that was entered has left its events. *)
Lemma run_steps_starts (steps : list (stage * M unit)) (s : stage) (e : event) :
  Forall (fun sm => only_emits (fun _ => True) (snd sm)) steps ->
  (forall m, In (s, m) steps -> forall w, In e (events_since w (snd (m w)))) ->
  forall w, In s (fst (run_steps steps w)) ->
            In e (events_since w (snd (snd (run_steps steps w)))).
Proof.
  induction 1 as [|[s0 m0] rest Hm0 Hrest IH]; intros Hstarts w; [intros [] |].
  cbn [run_steps]. cbn [fst snd] in Hm0.
  destruct (Hm0 w) as (evs1 & Hout1 & _).
  pose proof (fun H => Hstarts m0 H w) as Hhere.
  destruct (m0 w) as [[[]|c|x] w1]; cbn [fst snd] in *.
  - destruct (run_steps_emits (fun _ _ => True) rest) with (w := w1) as (evs2 & Hout2 & _).
    { eapply Forall_impl; [exact Hrest |]. intros sm Hsm. exact Hsm. }
    rewrite (events_since_app w _ (evs1 ++ evs2)) by (now rewrite Hout2, Hout1, app_assoc).
    intros [<- | Hin].
    + apply in_or_app. left. rewrite <- (events_since_app w w1 evs1 Hout1).
      apply Hhere. now left.
    + apply in_or_app. right. rewrite <- (events_since_app w1 _ evs2 Hout2).
      apply IH; [| exact Hin]. intros m Hm. apply Hstarts. now right.
  - intros [<- | []]. apply Hhere. now left.
  - intros [<- | []]. apply Hhere. now left.
Qed.

(** The commands of the stages differ from one another, and are commands
    of the version control client or of the package registry client. *)
Lemma release_command_inj (type : string) (s s' : stage) (cmd : string) :
  release_command type s = Some cmd -> release_command type s' = Some cmd -> s = s'.
Proof.
  destruct s, s'; cbn [release_command]; intros H1 H2;
    try discriminate; try reflexivity;
    exfalso; rewrite <- H1 in H2; apply (inj Some) in H2;
    apply String.eqb_eq in H2; vm_compute in H2; discriminate H2.
Qed.

Lemma release_command_vcs_or_registry (type : string) (s : stage) (cmd : string) :
  release_command type s = Some cmd -> is_vcs_or_registry cmd = true.
Proof.
  destruct s; cbn [release_command]; intros H; try discriminate;
    injection H as <-; vm_compute; reflexivity.
Qed.

Lemma harmless_no_release_command (type : string) (e : event) :
  harmless e -> no_release_command type e.
Proof.
  intros H s cmd Hs ->. cbn [harmless] in H.
  rewrite (release_command_vcs_or_registry type s cmd Hs) in H. discriminate H.
Qed.

Lemma line_no_release_command (type : string) (e : event) :
  is_line e -> no_release_command type e.
Proof. intros H s cmd _ ->. exact H. Qed.

Lemma run_no_release_command (type cmd : string) :
  String.eqb cmd ("npm version " +:+ type) = false ->
  String.eqb cmd "git push origin master --tags" = false ->
  String.eqb cmd "npm publish" = false ->
  no_release_command type (Run cmd).
Proof.
  intros H1 H2 H3 s c Hs Heq. injection Heq as <-.
  apply String.eqb_neq in H1, H2, H3.
  destruct s; cbn [release_command] in Hs; try discriminate; injection Hs as Hs; congruence.
Qed.

Ltac is_no_release_command :=
  first [ apply line_no_release_command; exact I
        | apply run_no_release_command; vm_compute; reflexivity ].

Lemma command_step_emits (cmd : string) :
  only_emits (fun e => e = Run cmd) (shelljs.exec cmd ;; ret tt).
Proof. emits_by ltac:(reflexivity). Qed.

Lemma command_step_starts (cmd : string) (w : world) :
  In (Run cmd) (events_since w (snd ((shelljs.exec cmd ;; ret tt) w))).
Proof.
  unfold bind. rewrite exec_run.
  destruct (fst (shell w cmd) =? 0)%Z; cbn [snd ret]; rewrite events_since_emit; now left.
Qed.

(** Each stage of [release] emits what a stage of its name may emit. *)
Lemma release_steps_emit (G : settings) (type : string) :
  Forall (fun sm => only_emits (stage_event type (fst sm)) (snd sm)) (release_steps G type).
Proof.
  unfold release_steps. repeat apply List.Forall_cons; try apply List.Forall_nil; cbn [fst snd];
    unfold stage_event; cbn [release_command].
  - apply (only_emits_weaken harmless);
      [apply harmless_no_release_command | apply test_harmless].
  - apply command_step_emits.
  - unfold target_changelog. emits_by is_no_release_command.
  - apply command_step_emits.
  - apply command_step_emits.
  - unfold target_gensite. emits_by is_no_release_command.
Qed.

(** The command of a stage is started exactly when the stage is
    entered. *)
Lemma release_command_iff_stage (G : settings) (type : string) (w : world) (s : stage)
    (cmd : string) :
  release_command type s = Some cmd ->
  In s (fst (run_steps (release_steps G type) w))
  <-> In (Run cmd) (events_since w (snd (snd (run_steps (release_steps G type) w)))).
Proof.
  intros Hs. split.
  - apply run_steps_starts.
    + eapply Forall_impl; [apply (release_steps_emit G type) |].
      intros sm Hsm. apply (only_emits_weaken (stage_event type (fst sm))); [auto | exact Hsm].
    + intros m Hm w'. unfold release_steps in Hm. cbn [In] in Hm.
      destruct Hm as [Hm|[Hm|[Hm|[Hm|[Hm|[Hm|[]]]]]]]; injection Hm as <- <-;
        cbn [release_command] in Hs; try discriminate; injection Hs as <-;
        apply command_step_starts.
  - destruct (run_steps_emits (stage_event type) _ (release_steps_emit G type) w)
      as (evs & Hout & Hevs).
    rewrite (events_since_app _ _ _ Hout). intros Hin.
    rewrite Forall_forall in Hevs. apply list_elem_of_In, Hevs in Hin.
    destruct Hin as (s' & Hs' & He). unfold stage_event in He.
    destruct (release_command type s') as [cmd'|] eqn:Hcmd'.
    + injection He as <-. now rewrite (release_command_inj type s s' cmd Hs Hcmd').
    + now destruct (He s cmd Hs).
Qed.

(** C3: for every type of release and in every run, the statements of
    [release] are the six stages in their order, each entered only when
    the one before it has returned: the stages entered are the first one,
    the first two, and so on, none skipped, and the version bump, the push
    of the tags and the publication of the package are started exactly
    when their stage is entered.  When the first stage, validate and
    test, fails, it is the only stage entered, the run of [release] ends
    as that stage ends, and no command of the version control client or
    of the package registry client has been started: neither the push of
    the tags nor the publication of the package. *)
Theorem release_stops_when_test_fails (G : settings) (type : string) (w : world) :
  release G type w = snd (run_steps (release_steps G type) w)
  /\ (exists n, (1 <= n <= 6)%nat /\ fst (run_steps (release_steps G type) w) = take n stages)
  /\ (forall s cmd,
        release_command type s = Some cmd ->
        In s (fst (run_steps (release_steps G type) w))
        <-> In (Run cmd) (events_since w (snd (release G type w))))
  /\ (failed (fst (target_test G w)) = true ->
      fst (run_steps (release_steps G type) w) = [ValidateAndTest]
      /\ release G type w = target_test G w
      /\ Forall harmless (events_since w (snd (release G type w)))
      /\ ~ In (Run "git push origin master --tags") (events_since w (snd (release G type w)))
      /\ ~ In (Run "npm publish") (events_since w (snd (release G type w)))).
Proof.
  split; [apply release_as_steps |]. split.
  { destruct (run_steps_in_order (release_steps G type) w) as (n & Hn & Hpos).
    exists (Nat.min n 6). split.
    - specialize (Hpos ltac:(discriminate)). lia.
    - rewrite Hn. change (fst <$> release_steps G type) with stages.
      destruct (Nat.le_gt_cases n 6).
      + now rewrite Nat.min_l by lia.
      + rewrite Nat.min_r by lia. now rewrite (take_ge stages n) by (cbn; lia). }
  split.
  { intros s cmd Hs. rewrite release_as_steps. now apply release_command_iff_stage. }
  intros Hfail.
  assert (Hsteps : run_steps (release_steps G type) w = ([ValidateAndTest], target_test G w))
    by (now apply run_steps_first_fails).
  assert (Hrelease : release G type w = target_test G w)
    by (now rewrite release_as_steps, Hsteps).
  assert (Hevents : Forall harmless (events_since w (snd (release G type w)))).
  { rewrite Hrelease. destruct (test_harmless G w) as (evs & Hout & Hevs).
    now rewrite (events_since_app _ _ _ Hout). }
  split; [now rewrite Hsteps |]. split; [exact Hrelease |]. split; [exact Hevents |].
  rewrite Forall_forall in Hevents.
  split; intros Hin; apply list_elem_of_In, Hevents in Hin; discriminate Hin.
Qed.

Lemma release_stops_when_test_fails_witness :
  failed (fst (target_test example_settings undocumented_world)) = true
  /\ fst (run_steps (release_steps example_settings "patch") undocumented_world) = [ValidateAndTest]
  /\ release example_settings "patch" undocumented_world
     = target_test example_settings undocumented_world
  /\ ~ In (Run "git push origin master --tags")
          (events_since undocumented_world (snd (release example_settings "patch" undocumented_world)))
  /\ ~ In (Run "npm publish")
          (events_since undocumented_world (snd (release example_settings "patch" undocumented_world))).
Proof.
  assert (Hfail : failed (fst (target_test example_settings undocumented_world)) = true)
    by (vm_compute; reflexivity).
  split; [exact Hfail |].
  pose proof (release_stops_when_test_fails example_settings "patch" undocumented_world)
    as (_ & _ & _ & Hhalt).
  destruct (Hhalt Hfail) as (Hstages & Hrelease & _ & Hpush & Hpublish).
  exact (conj Hstages (conj Hrelease (conj Hpush Hpublish))).
Defined.

Example release_of_undocumented_project :
  release example_settings "patch" undocumented_world
  = (Exit 1,
     emit [ Echo "Validating JSON Files" [];
            Run "jsonlint -q -c conf/eslint.json .eslintrc";
            Echo "Validating JavaScript files" [];
            Run "node  bin/eslint.js lib/eslint.js";
            Echo "Validating JavaScript test files" [];
            Run "node  bin/eslint.js tests/lib/rules/quotes.js";
            Echo "Validating rules" [];
            ConsoleError "Missing documentation for rule %s" [Str "quotes"] ]
          undocumented_world).
Proof. vm_compute. reflexivity. Qed.

Example release_of_complete_project :
  fst (run_steps (release_steps example_settings "minor") example_world) = stages
  /\ fst (release example_settings "minor" example_world) = Done tt
  /\ List.filter (fun e => match e with Run _ => true | _ => false end)
       (out (snd (release example_settings "minor" example_world)))
     = [ Run "jsonlint -q -c conf/eslint.json .eslintrc";
         Run "node  bin/eslint.js lib/eslint.js";
         Run "node  bin/eslint.js tests/lib/rules/quotes.js";
         Run "istanbul cover ./node_modules/mocha/bin/_mocha  -- -c tests/lib/rules/quotes.js";
         Run "istanbul check-coverage --statement 99 --branch 98 --function 99 --lines 99";
         Run "browserify ./tmp/eslint.js -o ./build/eslint.js -s eslint";
         Run "mocha-phantomjs -R dot tests/tests.htm";
         Run "npm version minor";
         Run "git tag";
         Run (log_command "v1.0.0" "v1.1.0");
         Run "git add CHANGELOG.md";
         Run "git commit --amend --no-edit";
         Run "git push origin master --tags";
         Run "npm publish";
         Run "git add -A .";
         Run ("git commit -m " +:+ quote +:+ "Autogenerated new docs at Wed Feb 12 2014 10:00:00" +:+ quote);
         Run "git fetch origin && git rebase origin/master";
         Run "git push origin master" ].
Proof. repeat split; vm_compute; reflexivity. Qed.

(** * Further properties *)

(** ** The extension predicate, in full *)

Lemma fileType_true_cases (extension filename : string) :
  fileType extension filename = true ->
  (filename = extension /\ has_char "." extension = false)
  \/ (exists stem, filename = stem +:+ "." +:+ extension /\ has_char "." extension = false).
Proof.
  intros Htype. destruct (has_char "." filename) eqn:Hdot.
  - destruct (split_at_last_dot filename Hdot) as (pre & suf & -> & Hsuf).
    rewrite fileType_last_dot in Htype by exact Hsuf.
    apply String.eqb_eq in Htype as <-. right. now exists pre.
  - rewrite fileType_no_dot in Htype by exact Hdot.
    apply String.eqb_eq in Htype as <-. now left.
Qed.

(** X1: the predicate holds of a string exactly when the string is the
    extension itself, or ends with a dot followed by the extension; in
    both cases the extension has no dot in it. *)
Theorem fileType_characterised (extension filename : string) :
  fileType extension filename = true <->
  has_char "." extension = false
  /\ (filename = extension \/ exists stem, filename = stem +:+ "." +:+ extension).
Proof.
  split.
  - intros H. destruct (fileType_true_cases _ _ H) as [[-> Hext] | (stem & -> & Hext)].
    + split; [exact Hext | now left].
    + split; [exact Hext | right; now exists stem].
  - intros [Hext [-> | [stem ->]]].
    + rewrite fileType_no_dot by exact Hext. apply String.eqb_refl.
    + rewrite fileType_last_dot by exact Hext. apply String.eqb_refl.
Qed.

(** X2: an extension that has a dot in it, as [min.js], matches no file
    name at all: only the text after the last dot is compared. *)
Theorem fileType_compound_extension (extension : string) :
  has_char "." extension = true ->
  forall filename, fileType extension filename = false.
Proof.
  intros Hext filename. destruct (fileType extension filename) eqn:Htype; [| reflexivity].
  destruct (fileType_true_cases _ _ Htype) as [[_ H] | (_ & _ & H)]; congruence.
Qed.

Lemma fileType_compound_extension_witness :
  has_char "." "min.js" = true
  /\ fileType "min.js" "lib/eslint.min.js" = false
  /\ fileType "min.js" "min.js" = false.
Proof.
  split; [reflexivity |].
  split; apply (fileType_compound_extension "min.js"); reflexivity.
Defined.

(** ** The performance gate as a vote *)

Lemma exceeds_monotone (x y : Q) (limit : number) :
  (x <= y)%Q -> exceeds (Some x) limit = true -> exceeds (Some y) limit = true.
Proof.
  intros Hle. rewrite !exceeds_above. destruct limit as [l|]; cbn [above]; [lra | tauto].
Qed.

Ltac vote_contradiction :=
  match goal with
  | H1 : exceeds (Some ?x) ?l = true, H2 : exceeds (Some ?y) ?l = false |- _ =>
      assert (x <= y)%Q by lra;
      rewrite (exceeds_monotone x y l) in H2 by assumption; discriminate H2
  end.

Lemma median_is_majority (a b c : Q) (limit : number) :
  exceeds (sort compareNumbers [a; b; c] !! 1%nat) limit
  = (2 <=? runs_over limit [a; b; c])%nat.
Proof.
  rewrite sort_three. unfold runs_over. cbn [List.filter].
  destruct (Qle_bool a b) eqn:Hab, (Qle_bool a c) eqn:Hac, (Qle_bool b c) eqn:Hbc;
    order_facts;
    change (?l !! 1%nat) with (nth_error l 1); cbn [nth_error];
    destruct (exceeds (Some a) limit) eqn:Ea, (exceeds (Some b) limit) eqn:Eb,
      (exceeds (Some c) limit) eqn:Ec;
    try reflexivity; vote_contradiction.
Qed.

(** X3: when the three runs complete, the gate fails exactly when at least
    two of the three durations are above the limit, and passes when at
    most one is: a single slow run never fails it, two slow runs always
    do, and the order of the runs does not matter. *)
Theorem perf_fails_on_two_slow_runs
    (w : world) (cpuSpeed : Z) (others : list Z) (diff1 diff2 diff3 : Z * Z) :
  cpus w = cpuSpeed :: others ->
  fst (shell w (ESLINT +:+ "./tests/performance/jshint.js")) = 0%Z ->
  let durations :=
    [milliseconds (round w) diff1; milliseconds (round w) diff2; milliseconds (round w) diff3] in
  let over := runs_over (perf_limit (round w) cpuSpeed) durations in
  (fst (target_perf diff1 diff2 diff3 w) = Exit 1 <-> (2 <= over)%nat)
  /\ (fst (target_perf diff1 diff2 diff3 w) = Done tt <-> (over <= 1)%nat).
Proof.
  intros Hcpus Hcmd durations over.
  rewrite (perf_run w cpuSpeed others diff1 diff2 diff3 Hcpus Hcmd).
  cbv zeta. cbn [fst]. rewrite median_is_majority.
  subst over durations.
  destruct (Nat.leb_spec 2 (runs_over (perf_limit (round w) cpuSpeed)
                              [milliseconds (round w) diff1; milliseconds (round w) diff2;
                               milliseconds (round w) diff3]));
    split; split; (congruence || lia).
Qed.

Lemma perf_fails_on_two_slow_runs_witness :
  (fst (target_perf (0, 100000000)%Z (0, 90000000)%Z (0, 400000000)%Z example_world) = Done tt
   <-> (runs_over (Fin 150) [100; 90; 400]%Q <= 1)%nat)
  /\ runs_over (Fin 150) [100; 90; 400]%Q = 1%nat.
Proof.
  split; [| reflexivity].
  exact (proj2 (perf_fails_on_two_slow_runs example_world 50000 []
                  (0, 100000000)%Z (0, 90000000)%Z (0, 400000000)%Z eq_refl eq_refl)).
Defined.

(** X4: on a machine whose first processor reports a clock speed of 0 the
    limit is infinite and the gate passes whatever the three durations
    are. *)
Theorem perf_passes_at_clock_speed_zero
    (w : world) (others : list Z) (diff1 diff2 diff3 : Z * Z) :
  cpus w = 0%Z :: others ->
  fst (shell w (ESLINT +:+ "./tests/performance/jshint.js")) = 0%Z ->
  perf_limit (round w) 0 = Infinity
  /\ fst (target_perf diff1 diff2 diff3 w) = Done tt
  /\ last (out (snd (target_perf diff1 diff2 diff3 w)))
     = Some (Echo "Performance budget ok:  %dms (limit: %dms)"
               [Num (Fin (milliseconds (round w) diff3)); Num Infinity]).
Proof.
  intros Hcpus Hcmd.
  rewrite (perf_run w 0 others diff1 diff2 diff3 Hcpus Hcmd). cbv zeta.
  change (perf_limit (round w) 0) with Infinity.
  assert (Hnever : forall x, exceeds x Infinity = false) by (now intros [q|]).
  rewrite !Hnever. cbn [fst snd emit out].
  split; [reflexivity |]. split; [reflexivity |].
  now rewrite last_app.
Qed.

Lemma perf_passes_at_clock_speed_zero_witness :
  cpus stalled_clock_world = [0%Z]
  /\ fst (target_perf (0, 900000000000)%Z (0, 900000000000)%Z (0, 900000000000)%Z
            stalled_clock_world) = Done tt.
Proof.
  split; [reflexivity |].
  exact (proj1 (proj2 (perf_passes_at_clock_speed_zero stalled_clock_world []
                         (0, 900000000000)%Z (0, 900000000000)%Z (0, 900000000000)%Z
                         eq_refl eq_refl))).
Defined.

(** ** What a task leaves as it was *)

Lemma preserves_ret {A X} (f : world -> X) (a : A) : preserves f (ret a).
Proof. now intros w. Qed.

Lemma preserves_bind {A B X} (f : world -> X) (m : M A) (k : A -> M B) :
  preserves f m -> (forall a, preserves f (k a)) -> preserves f (bind m k).
Proof.
  intros Hm Hk w. unfold bind. specialize (Hm w).
  destruct (m w) as [[a|c|e] w1]; cbn [snd] in *; [| exact Hm ..].
  now rewrite Hk.
Qed.

Lemma preserves_read {A X} (f : world -> X) (g : world -> A) : preserves f (read g).
Proof. now intros w. Qed.

Lemma preserves_exit {A X} (f : world -> X) (code : Z) : preserves f (exit (A:=A) code).
Proof. now intros w. Qed.

Lemma preserves_if {A X} (f : world -> X) (b : bool) (m1 m2 : M A) :
  preserves f m1 -> preserves f m2 -> preserves f (if b then m1 else m2).
Proof. now destruct b. Qed.

Lemma preserves_when {X} (f : world -> X) (b : bool) (m : M unit) :
  preserves f m -> preserves f (when b m).
Proof. intros H. destruct b; [exact H | apply preserves_ret]. Qed.

Lemma preserves_forEach {A X} (f : world -> X) (l : list A) (body : A -> M unit) :
  (forall x, preserves f (body x)) -> preserves f (forEach l body).
Proof.
  intros H. induction l as [|x l IH]; cbn [forEach]; [apply preserves_ret |].
  apply preserves_bind; [apply H | intros _; exact IH].
Qed.

Section Preserved.

Context {X : Type} (f : world -> X).

(** [f] does not read the lines printed. *)
Hypothesis f_emit : forall evs w, f (emit evs w) = f w.

Lemma preserves_echo (fmt : string) (args : list arg) : preserves f (shelljs.echo fmt args).
Proof. intros w. apply f_emit. Qed.

Lemma preserves_error (fmt : string) (args : list arg) : preserves f (console.error fmt args).
Proof. intros w. apply f_emit. Qed.

Lemma preserves_exec (cmd : string) : preserves f (shelljs.exec cmd).
Proof. intros w. rewrite exec_run. apply f_emit. Qed.

Lemma preserves_nodeCLI (name : string) (args : list string) :
  preserves f (nodeCLI.exec name args).
Proof. apply preserves_exec. Qed.

Lemma preserves_test (flag p : string) : preserves f (shelljs.test flag p).
Proof. now intros w. Qed.

Lemma preserves_cat (ps : list string) : preserves f (shelljs.cat ps).
Proof. intros w. unfold shelljs.cat. now destruct (shelljs.read_all (files w) ps). Qed.

Lemma preserves_fileSet (dir extension : string) : preserves f (fileSet dir extension).
Proof. now intros w. Qed.

Lemma preserves_dateformat (mask : option string) : preserves f (dateformat mask).
Proof. now intros w. Qed.

Lemma preserves_pwd : preserves f shelljs.pwd.
Proof. now intros w. Qed.

(** [f] does not read the file tree either. *)
Hypothesis f_files : forall g w, f (set_files g w) = f w.

Lemma preserves_to (text p : string) : preserves f (shelljs.to text p).
Proof.
  intros w. unfold shelljs.to.
  destruct (files w !! shelljs.key p) as [[t|]|]; cbn [snd]; auto.
Qed.

Lemma preserves_toEnd (text p : string) : preserves f (shelljs.toEnd text p).
Proof.
  intros w. unfold shelljs.toEnd.
  destruct (files w !! shelljs.key p) as [[t|]|]; cbn [snd]; auto.
Qed.

Lemma preserves_rm (p : string) : preserves f (shelljs.rm p).
Proof.
  intros w. unfold shelljs.rm.
  destruct (files w !! shelljs.key p) as [[t|]|]; cbn [snd]; auto.
Qed.

Lemma preserves_rm_r (p : string) : preserves f (shelljs.rm_r p).
Proof.
  intros w. unfold shelljs.rm_r.
  destruct (files w !! shelljs.key p) as [n|]; cbn [snd]; auto.
Qed.

Lemma preserves_mv (a b : string) : preserves f (shelljs.mv a b).
Proof.
  intros w. unfold shelljs.mv.
  destruct (files w !! shelljs.key a) as [[t|]|], (files w !! shelljs.key b); cbn [snd]; auto.
Qed.

Lemma preserves_mkdir (p : string) : preserves f (shelljs.mkdir p).
Proof.
  intros w. unfold shelljs.mkdir.
  destruct (files w !! shelljs.key p) as [n|]; cbn [snd]; auto.
Qed.

Lemma preserves_cp_r (force : bool) (src dst : string) : preserves f (shelljs.cp_r force src dst).
Proof.
  intros w. unfold shelljs.cp_r.
  destruct (files w !! shelljs.key dst) as [[t|]|]; cbn [snd]; auto.
Qed.

End Preserved.

(** The steps of a task that reads but does not write. *)
Ltac keeps_step :=
  lazymatch goal with
  | |- preserves _ (bind _ _) => apply preserves_bind; [| intros ?]
  | |- preserves _ (ret _) => apply preserves_ret
  | |- preserves _ (read _) => apply preserves_read
  | |- preserves _ (exit _) => apply preserves_exit
  | |- preserves _ (when _ _) => apply preserves_when
  | |- preserves _ (if _ then _ else _) => apply preserves_if
  | |- preserves _ (shelljs.test _ _) => apply preserves_test
  | |- preserves _ (shelljs.cat _) => apply preserves_cat
  | |- preserves _ (fileSet _ _) => apply preserves_fileSet
  | |- preserves _ (dateformat _) => apply preserves_dateformat
  | |- preserves _ shelljs.pwd => apply preserves_pwd
  | |- preserves _ (shelljs.echo _ _) => apply preserves_echo; reflexivity
  | |- preserves _ (console.error _ _) => apply preserves_error; reflexivity
  | |- preserves _ (shelljs.exec _) => apply preserves_exec; reflexivity
  | |- preserves _ (nodeCLI.exec _ _) => apply preserves_nodeCLI; reflexivity
  | |- preserves _ (shelljs.to _ _) => apply preserves_to; reflexivity
  | |- preserves _ (shelljs.toEnd _ _) => apply preserves_toEnd; reflexivity
  | |- preserves _ (shelljs.rm _) => apply preserves_rm; reflexivity
  | |- preserves _ (shelljs.rm_r _) => apply preserves_rm_r; reflexivity
  | |- preserves _ (shelljs.mv _ _) => apply preserves_mv; reflexivity
  | |- preserves _ (shelljs.mkdir _) => apply preserves_mkdir; reflexivity
  | |- preserves _ (shelljs.cp_r _ _ _) => apply preserves_cp_r; reflexivity
  end.

Ltac keeps := repeat keeps_step.

Lemma checkRuleFiles_loop_preserves {X} (f : world -> X) (index : string) (conf : gmap string Z)
    (ruleFiles : list string) (errors : nat) :
  (forall evs w, f (emit evs w) = f w) ->
  preserves f (checkRuleFiles_loop index conf ruleFiles errors).
Proof.
  intros Hf. revert errors. induction ruleFiles as [|filename rest IH]; intros errors;
    cbn [checkRuleFiles_loop]; keeps; [| apply IH].
  unfold checkRuleFile.
  repeat first [keeps_step | apply preserves_error; exact Hf].
Qed.

Lemma checkRuleFiles_preserves {X} (f : world -> X) :
  (forall evs w, f (emit evs w) = f w) -> preserves f target_checkRuleFiles.
Proof.
  intros Hf. unfold target_checkRuleFiles.
  repeat first [keeps_step | apply preserves_echo; exact Hf].
  now apply checkRuleFiles_loop_preserves.
Qed.

(** The steps of a task that starts no command. *)
Ltac prints_step :=
  lazymatch goal with
  | |- only_emits _ (bind _ _) => apply only_emits_bind; [| intros ?]
  | |- only_emits _ (ret _) => apply only_emits_ret
  | |- only_emits _ (read _) => apply only_emits_read
  | |- only_emits _ (exit _) => apply only_emits_exit
  | |- only_emits _ (if _ then _ else _) => apply only_emits_if
  | |- only_emits _ (shelljs.test _ _) => apply only_emits_test
  | |- only_emits _ (shelljs.cat _) => apply only_emits_cat
  | |- only_emits _ (fileSet _ _) => apply only_emits_fileSet
  | |- only_emits _ (shelljs.echo _ _) => apply only_emits_echo; exact I
  | |- only_emits _ (console.error _ _) => apply only_emits_error; exact I
  end.

Lemma checkRuleFiles_loop_prints_only (index : string) (conf : gmap string Z)
    (ruleFiles : list string) (errors : nat) :
  only_emits is_line (checkRuleFiles_loop index conf ruleFiles errors).
Proof.
  revert errors. induction ruleFiles as [|filename rest IH]; intros errors;
    cbn [checkRuleFiles_loop]; repeat prints_step; [| apply IH].
  unfold checkRuleFile. repeat prints_step.
Qed.

Lemma checkRuleFiles_prints_only : only_emits is_line target_checkRuleFiles.
Proof.
  unfold target_checkRuleFiles. repeat prints_step.
  apply checkRuleFiles_loop_prints_only.
Qed.

(** X5: the validator only reads: whatever the project and however the run
    ends, it leaves the file tree and the working directory as they were
    and starts no command; all it does is print. *)
Theorem checkRuleFiles_only_reads (w : world) :
  files (snd (target_checkRuleFiles w)) = files w
  /\ cwd (snd (target_checkRuleFiles w)) = cwd w
  /\ Forall is_line (events_since w (snd (target_checkRuleFiles w))).
Proof.
  split; [now apply (checkRuleFiles_preserves files) |].
  split; [now apply (checkRuleFiles_preserves cwd) |].
  destruct (checkRuleFiles_prints_only w) as (evs & Hout & Hevs).
  unfold events_since. now rewrite Hout, drop_app_length.
Qed.

Lemma missing_conditions_bound (w : world) (index rule : string) :
  (missing_conditions w index rule <= 3)%nat.
Proof.
  unfold missing_conditions.
  destruct (has_doc w rule), (has_link index rule), (has_setting w rule), (has_tests w rule);
    cbn; lia.
Qed.

Lemma list_sum_bound (l : list nat) (n : nat) :
  Forall (fun x => x <= n)%nat l -> (list_sum l <= n * List.length l)%nat.
Proof.
  induction 1 as [|x l Hx _ IH]; cbn [List.length].
  - cbn. lia.
  - change (list_sum (x :: l)) with (x + list_sum l)%nat. nia.
Qed.

(** X6: the validator prints at most three error lines per rule file, and
    never both the line for a missing documentation and the line for a
    missing link in the index for one rule. *)
Theorem checkRuleFiles_errors_per_rule (w : world) (index : string) :
  file_text w "docs/rules/README.md" = Some index ->
  exists reports,
    events_since w (snd (target_checkRuleFiles w)) = Echo "Validating rules" [] :: reports
    /\ (List.length reports
        <= 3 * List.length (List.filter (fileType "js") (shelljs.listing "lib/rules/" w)))%nat
    /\ forall rule,
        ~ (In (ConsoleError "Missing documentation for rule %s" [Str rule]) reports
           /\ In (ConsoleError "Missing link to documentation for rule %s in index" [Str rule])
                 reports).
Proof.
  intros Hindex. exists (flat_map (rule_report w index) (rules_of w)).
  rewrite (checkRuleFiles_run w index Hindex). cbn [snd]. rewrite events_since_emit.
  split; [reflexivity |]. split.
  - rewrite reports_length.
    etransitivity; [apply (list_sum_bound _ 3) |].
    + apply Forall_forall. intros n Hn. apply list_elem_of_In, in_map_iff in Hn as (rule & <- & _).
      apply missing_conditions_bound.
    + unfold rules_of. now rewrite !length_fmap.
  - intros rule [Hdoc Hlink].
    apply in_flat_map in Hdoc as (r1 & _ & H1). apply in_flat_map in Hlink as (r2 & _ & H2).
    unfold rule_report in H1, H2.
    assert (D1 : r1 = rule /\ has_doc w r1 = false).
    { destruct (has_doc w r1), (has_link index r1), (has_setting w r1), (has_tests w r1);
        cbn in H1; intuition congruence. }
    assert (D2 : r2 = rule /\ has_doc w r2 = true).
    { destruct (has_doc w r2), (has_link index r2), (has_setting w r2), (has_tests w r2);
        cbn in H2; intuition congruence. }
    destruct D1 as [-> D1], D2 as [-> D2]. congruence.
Qed.

Lemma checkRuleFiles_errors_per_rule_witness :
  exists reports,
    events_since undocumented_world (snd (target_checkRuleFiles undocumented_world))
    = Echo "Validating rules" [] :: reports
    /\ (List.length reports
        <= 3 * List.length (List.filter (fileType "js")
                              (shelljs.listing "lib/rules/" undocumented_world)))%nat
    /\ forall rule,
        ~ (In (ConsoleError "Missing documentation for rule %s" [Str rule]) reports
           /\ In (ConsoleError "Missing link to documentation for rule %s in index" [Str rule])
                 reports).
Proof.
  apply (checkRuleFiles_errors_per_rule undocumented_world
           ("* [no-alert](no-alert.md)" +:+ nl +:+ "* [quotes](quotes.md)")).
  reflexivity.
Defined.

(** ** Rule files and rule names *)

Lemma prefix_char (c : ascii) (s : string) :
  String.prefix (String c EmptyString) s
  = match s with String c' _ => Ascii.eqb c c' | EmptyString => false end.
Proof.
  destruct s as [|c' s]; [reflexivity |].
  rewrite prefix_cons. destruct s; apply andb_true_r.
Qed.

Lemma lastIndexOf_from_absent (c : ascii) (s : string) (i : Z) :
  has_char c s = false -> JS.lastIndexOf_from (String c EmptyString) s i = (-1)%Z.
Proof.
  revert i. induction s as [|c' s IH]; intros i H; cbn [JS.lastIndexOf_from has_char] in *.
  - reflexivity.
  - apply orb_false_iff in H as [Hc Hs].
    rewrite (IH _ Hs), prefix_char, Hc. reflexivity.
Qed.

Lemma lastIndexOf_from_last (c : ascii) (pre suf : string) (i : Z) :
  (0 <= i)%Z ->
  has_char c suf = false ->
  JS.lastIndexOf_from (String c EmptyString) (pre +:+ String c suf) i
  = (i + Z.of_nat (String.length pre))%Z.
Proof.
  revert i. induction pre as [|c' pre IH]; intros i Hi Hsuf; unfold_append.
  - cbn [JS.lastIndexOf_from String.length].
    rewrite (lastIndexOf_from_absent _ _ _ Hsuf), prefix_char, Ascii.eqb_refl.
    cbn. lia.
  - cbn [String.length JS.lastIndexOf_from].
    rewrite IH by (lia || assumption).
    destruct (Z.eqb_spec (i + 1 + Z.of_nat (String.length pre)) (-1)); lia.
Qed.

Lemma rev_app_append (a b acc : string) :
  String.rev_app (a +:+ b) acc = String.rev_app b (String.rev_app a acc).
Proof.
  revert acc. induction a as [|c a IH]; intros acc; unfold_append; [reflexivity |].
  cbn [String.rev_app]. apply IH.
Qed.

Lemma substring_of_append (a b : string) :
  String.substring 0 (String.length a) (a +:+ b) = a.
Proof.
  induction a as [|c a IH]; unfold_append; cbn [String.length String.substring].
  - now destruct b.
  - now rewrite IH.
Qed.

(** The base name of a rule file directly in a directory is what stands
    between the last slash and [.js]. *)
Lemma basename_of_rule_file (dir name : string) :
  has_char "/" name = false ->
  path.basename (dir +:+ "/" +:+ name +:+ ".js") ".js" = name.
Proof.
  intros Hname. unfold path.basename, JS.lastIndexOf, JS.substring.
  assert (Hsuf : has_char "/" (name +:+ ".js") = false)
    by (rewrite has_char_append, Hname; reflexivity).
  change (dir +:+ "/" +:+ name +:+ ".js") with (dir +:+ String "/" (name +:+ ".js")).
  rewrite lastIndexOf_from_last by (lia || assumption).
  replace (Z.to_nat (0 + Z.of_nat (String.length dir) + 1))
    with (String.length (dir +:+ "/")) by (rewrite length_append; cbn [String.length]; lia).
  change (dir +:+ String "/" (name +:+ ".js")) with (dir +:+ "/" +:+ name +:+ ".js").
  rewrite <- (append_assoc dir "/"), skip_append.
  assert (Hends : path.ends_with ".js" (name +:+ ".js") = true).
  { unfold path.ends_with, String.rev. rewrite rev_app_append.
    cbn [String.rev_app]. rewrite !prefix_cons. cbn [Ascii.eqb Bool.eqb andb].
    now destruct (String.rev_app name ""). }
  rewrite Hends, length_append. cbn [String.length].
  replace (String.length name + 3 - 3)%nat with (String.length name) by lia.
  apply substring_of_append.
Qed.

Lemma rule_file_is_a_rule (w : world) (name : string) :
  has_char "/" name = false ->
  is_Some (files w !! ("lib/rules/" +:+ name +:+ ".js")) ->
  In name (rules_of w).
Proof.
  intros Hname [n Hn]. unfold rules_of.
  rewrite <- (basename_of_rule_file "lib/rules" name Hname) at 1.
  apply list_elem_of_In.
  apply (list_elem_of_fmap_2 (fun filename => path.basename filename ".js")).
  apply list_elem_of_In, filter_In. split.
  - right. apply filter_In. split.
    + apply list_elem_of_In, list_elem_of_fmap. exists ("lib/rules/" +:+ name +:+ ".js", n).
      split; [reflexivity |]. now apply elem_of_map_to_list.
    + unfold shelljs.below. change (shelljs.key "lib/rules/" +:+ "/") with "lib/rules/".
      apply prefix_spec. now exists (name +:+ ".js").
  - change ("lib/rules" +:+ "/" +:+ name +:+ ".js") with ("lib/rules/" +:+ name +:+ "." +:+ "js").
    rewrite <- append_assoc. now rewrite fileType_last_dot.
Qed.

Lemma missing_doc_counts (w : world) (index rule : string) (rules : list string) :
  In rule rules -> has_doc w rule = false ->
  list_sum (missing_conditions w index <$> rules) <> 0%nat.
Proof.
  intros Hin Hdoc. induction rules as [|r rules IH]; [destruct Hin |].
  change (list_sum (missing_conditions w index <$> r :: rules))
    with (missing_conditions w index r + list_sum (missing_conditions w index <$> rules))%nat.
  destruct Hin as [-> | Hin].
  - unfold missing_conditions. rewrite Hdoc. lia.
  - specialize (IH Hin). lia.
Qed.

(** X7: a rule file [lib/rules/N.js] is validated under the name [N]: when
    [docs/rules/N.md] is not a file, the validator fails and one of its
    lines names [N]. *)
Theorem checkRuleFiles_names_undocumented_rule_file (w : world) (index name : string) :
  file_text w "docs/rules/README.md" = Some index ->
  has_char "/" name = false ->
  is_Some (files w !! ("lib/rules/" +:+ name +:+ ".js")) ->
  is_file w ("docs/rules/" +:+ name +:+ ".md") = false ->
  fst (target_checkRuleFiles w) = Exit 1
  /\ In (ConsoleError "Missing documentation for rule %s" [Str name])
        (events_since w (snd (target_checkRuleFiles w))).
Proof.
  intros Hindex Hname Hfile Hdoc.
  pose proof (rule_file_is_a_rule w name Hname Hfile) as Hrule.
  rewrite (checkRuleFiles_run w index Hindex). cbn [fst snd]. rewrite events_since_emit.
  split.
  - destruct (Nat.eqb_spec (list_sum (missing_conditions w index <$> rules_of w)) 0)
      as [Hzero|]; [| reflexivity].
    now apply (missing_doc_counts w index name) in Hzero.
  - right. apply in_flat_map. exists name. split; [exact Hrule |].
    unfold rule_report, has_doc. rewrite Hdoc. now left.
Qed.

Lemma checkRuleFiles_names_undocumented_rule_file_witness :
  fst (target_checkRuleFiles undocumented_world) = Exit 1
  /\ In (ConsoleError "Missing documentation for rule %s" [Str "quotes"])
        (events_since undocumented_world (snd (target_checkRuleFiles undocumented_world))).
Proof.
  apply (checkRuleFiles_names_undocumented_rule_file undocumented_world
           ("* [no-alert](no-alert.md)" +:+ nl +:+ "* [quotes](quotes.md)") "quotes").
  - reflexivity.
  - reflexivity.
  - vm_compute. eauto.
  - reflexivity.
Defined.

(** ** The changelog, whatever the tags *)

(** What [target.changelog] does for any list of tags, when the changelog
    exists and the commands succeed. *)
Lemma changelog_run_any_tags (w : world) (tagsOutput logOutput old : string) :
  let tags := JS.split JS.is_space (JS.trim tagsOutput) in
  let rangeTags := JS.slice tags (Z.of_nat (List.length tags) - 2) in
  shell w "git tag" = (0%Z, tagsOutput) ->
  shell w (range_log_command rangeTags) = (0%Z, logOutput) ->
  fst (shell w "git add CHANGELOG.md") = 0%Z ->
  fst (shell w "git commit --amend --no-edit") = 0%Z ->
  files w !! "CHANGELOG.md" = Some (File old) ->
  files w !! "CHANGELOG.tmp" <> Some Dir ->
  files w !! "CHANGELOG.md.tmp" <> Some Dir ->
  let entries := List.filter logFilter (JS.split JS.is_newline logOutput) in
  let block := changelog_block (JS.to_string (rangeTags !! 1%nat))
                 (today w (Some "mmmm d, yyyy")) entries in
  target_changelog w
  = (Done tt,
     emit [Run "git tag"; Run (range_log_command rangeTags);
           Run "git add CHANGELOG.md"; Run "git commit --amend --no-edit"]
       (set_files (fun fs => <["CHANGELOG.md" := File (block +:+ old)]>
                               (delete "CHANGELOG.md.tmp" (delete "CHANGELOG.tmp" fs))) w)).
Proof.
  intros tags rangeTags Htag Hlog Hadd Hcommit Hold Htmp Hmdtmp entries block.
  unfold target_changelog.
  rewrite bind_exec_ok by now rewrite Htag.
  rewrite Htag. cbn [snd]. cbv zeta. fold tags. fold rangeTags.
  rewrite bind_dateformat. tidy_world.
  fold (range_log_command rangeTags).
  rewrite bind_to by (changelog_keys; lookup_files).
  changelog_keys. tidy_world.
  rewrite bind_exec_ok by (tidy_world; now rewrite Hlog).
  tidy_world. rewrite Hlog. cbn [snd]. fold entries.
  erewrite bind_toEnd by (changelog_keys; lookup_files).
  changelog_keys. tidy_world.
  erewrite bind_cat_two; [| changelog_keys; lookup_files | changelog_keys; lookup_files].
  rewrite changelog_text. fold block.
  rewrite bind_to by (changelog_keys; lookup_files).
  changelog_keys. tidy_world.
  erewrite bind_rm by (changelog_keys; lookup_files).
  changelog_keys. tidy_world.
  erewrite bind_rm by (changelog_keys; lookup_files).
  changelog_keys. tidy_world.
  erewrite bind_mv; [| changelog_keys; lookup_files | changelog_keys; lookup_files].
  changelog_keys. tidy_world.
  rewrite bind_exec_ok by (tidy_world; exact Hadd).
  tidy_world.
  rewrite bind_exec_ok by (tidy_world; exact Hcommit).
  tidy_world. rewrite ret_run. cbn [app].
  f_equal. f_equal. apply set_files_ext.
  apply map_eq. intros p.
  repeat (rewrite lookup_insert || rewrite lookup_delete).
  repeat case_decide; try congruence; try discriminate; reflexivity.
Qed.

Lemma changelog_file_after (w : world) (evs : list event) (text : string) :
  file_text (emit evs (set_files (fun fs => <["CHANGELOG.md" := File text]>
                                              (delete "CHANGELOG.md.tmp" (delete "CHANGELOG.tmp" fs)))
                         w)) "CHANGELOG.md" = Some text.
Proof.
  unfold file_text, shelljs.contents. changelog_keys.
  rewrite files_emit, files_set_files. now rewrite lookup_insert_eq.
Qed.

Lemma events_since_emit_files (f : gmap string node -> gmap string node) (evs : list event)
    (w : world) :
  events_since w (emit evs (set_files f w)) = evs.
Proof.
  unfold events_since. change (out (emit evs (set_files f w))) with (out w ++ evs).
  apply drop_app_length.
Qed.

(** X8: with a single tag (or none: the one tag is then the empty string)
    there is no second range tag: the header reads [undefined] where the
    tag should be, and the log is asked for the single tag instead of a
    range. *)
Theorem changelog_with_one_tag (w : world) (tagsOutput logOutput old tag : string) :
  shell w "git tag" = (0%Z, tagsOutput) ->
  JS.split JS.is_space (JS.trim tagsOutput) = [tag] ->
  shell w (range_log_command [tag]) = (0%Z, logOutput) ->
  fst (shell w "git add CHANGELOG.md") = 0%Z ->
  fst (shell w "git commit --amend --no-edit") = 0%Z ->
  files w !! "CHANGELOG.md" = Some (File old) ->
  files w !! "CHANGELOG.tmp" <> Some Dir ->
  files w !! "CHANGELOG.md.tmp" <> Some Dir ->
  let entries := List.filter logFilter (JS.split JS.is_newline logOutput) in
  let header := "undefined - " +:+ today w (Some "mmmm d, yyyy") in
  fst (target_changelog w) = Done tt
  /\ events_since w (snd (target_changelog w))
     = [Run "git tag";
        Run ("git log --pretty=format:" +:+ quote +:+ "* %s (%an)" +:+ quote +:+ " " +:+ tag);
        Run "git add CHANGELOG.md"; Run "git commit --amend --no-edit"]
  /\ file_text (snd (target_changelog w)) "CHANGELOG.md"
     = Some (unlines (header :: EmptyString :: entries ++ [EmptyString]) +:+ old).
Proof.
  intros Htag Htags Hlog Hadd Hcommit Hold Htmp Hmdtmp entries header.
  pose proof (changelog_run_any_tags w tagsOutput logOutput old) as Hrun.
  cbv zeta in Hrun. rewrite Htags in Hrun.
  change (JS.slice [tag] (Z.of_nat (List.length [tag]) - 2)) with [tag] in Hrun.
  rewrite (Hrun Htag Hlog Hadd Hcommit Hold Htmp Hmdtmp).
  cbn [fst snd]. split; [reflexivity |]. split.
  - apply events_since_emit_files.
  - apply changelog_file_after.
Qed.

Lemma changelog_with_one_tag_witness :
  JS.split JS.is_space (JS.trim (snd (shell one_tag_world "git tag"))) = ["v1.0.0"]
  /\ fst (target_changelog one_tag_world) = Done tt
  /\ events_since one_tag_world (snd (target_changelog one_tag_world))
     = [Run "git tag";
        Run ("git log --pretty=format:" +:+ quote +:+ "* %s (%an)" +:+ quote +:+ " " +:+ "v1.0.0");
        Run "git add CHANGELOG.md"; Run "git commit --amend --no-edit"]
  /\ file_text (snd (target_changelog one_tag_world)) "CHANGELOG.md"
     = Some (unlines ["undefined - February 12, 2014"; ""; ""; ""]
             +:+ unlines ["v1.0.0 - January 1, 2014"; ""; "* 1.0.0 (N)"]).
Proof.
  split; [reflexivity |].
  apply (changelog_with_one_tag one_tag_world ("v1.0.0" +:+ nl) ""
           (unlines ["v1.0.0 - January 1, 2014"; ""; "* 1.0.0 (N)"]) "v1.0.0");
    try reflexivity; vm_compute; discriminate.
Defined.



(** X10: when the log between the tags is empty, the one empty line that
    the split of the empty output gives passes the filter: the block is
    the header followed by three empty lines. *)
Theorem changelog_with_empty_log (w : world) (tagsOutput old : string) :
  let tags := JS.split JS.is_space (JS.trim tagsOutput) in
  let rangeTags := JS.slice tags (Z.of_nat (List.length tags) - 2) in
  shell w "git tag" = (0%Z, tagsOutput) ->
  shell w (range_log_command rangeTags) = (0%Z, EmptyString) ->
  fst (shell w "git add CHANGELOG.md") = 0%Z ->
  fst (shell w "git commit --amend --no-edit") = 0%Z ->
  files w !! "CHANGELOG.md" = Some (File old) ->
  files w !! "CHANGELOG.tmp" <> Some Dir ->
  files w !! "CHANGELOG.md.tmp" <> Some Dir ->
  let header := JS.to_string (rangeTags !! 1%nat) +:+ " - " +:+ today w (Some "mmmm d, yyyy") in
  file_text (snd (target_changelog w)) "CHANGELOG.md"
  = Some (header +:+ nl +:+ nl +:+ nl +:+ nl +:+ old).
Proof.
  intros tags rangeTags Htag Hlog Hadd Hcommit Hold Htmp Hmdtmp header.
  rewrite (changelog_run_any_tags w tagsOutput "" old Htag Hlog Hadd Hcommit Hold Htmp Hmdtmp).
  cbn [snd]. rewrite changelog_file_after. f_equal.
  unfold changelog_block. fold tags. fold rangeTags. fold header.
  change (List.filter logFilter (JS.split JS.is_newline "")) with [EmptyString].
  cbn [app]. rewrite !unlines_cons. cbn [unlines fold_right].
  repeat (progress (unfold_append; rewrite ?append_assoc)). reflexivity.
Qed.

Lemma changelog_with_empty_log_witness :
  file_text (snd (target_changelog one_tag_world)) "CHANGELOG.md"
  = Some ("undefined - February 12, 2014" +:+ nl +:+ nl +:+ nl +:+ nl
          +:+ unlines ["v1.0.0 - January 1, 2014"; ""; "* 1.0.0 (N)"]).
Proof.
  apply (changelog_with_empty_log one_tag_world ("v1.0.0" +:+ nl)
           (unlines ["v1.0.0 - January 1, 2014"; ""; "* 1.0.0 (N)"]));
    try reflexivity; vm_compute; discriminate.
Defined.

(** ** The index of the rules *)

Lemma bind_fileSet {B} (dir extension : string) (k : list string -> M B) (w : world) :
  bind (fileSet dir extension) k w
  = k (List.filter (fileType extension) (shelljs.listing dir w)) w.
Proof. reflexivity. Qed.

Lemma concat_lines (x : string) (l : list string) :
  String.concat EmptyString (x :: l) = x +:+ String.concat EmptyString l.
Proof. destruct l; [symmetry; apply append_empty_r | reflexivity]. Qed.

Lemma fold_left_lines {A} (line : A -> string) (l : list A) (init : string) :
  fold_left (fun output x => output +:+ line x) l init
  = init +:+ String.concat EmptyString (line <$> l).
Proof.
  revert init. induction l as [|x l IH]; intros init; cbn [fold_left fmap list_fmap].
  - symmetry. apply append_empty_r.
  - change (list_fmap A string line l) with (line <$> l).
    now rewrite IH, concat_lines, append_assoc.
Qed.

(** X11: in a base directory that exists and has its [rules/] directory,
    [generateRulesIndex] writes one file, [load-rules.js] in the base
    directory: the opening lines, one [require] line for each JavaScript
    file below [rules/] in the order of the file set, under its base name,
    and the closing lines; when [load-rules.js] is a directory nothing is
    written and the process exits.  Whatever the base directory, every
    other path is left as it was. *)
Theorem generateRulesIndex_writes_one_line_per_rule (basedir : string) (w : world) :
  let target := shelljs.key (basedir +:+ "load-rules.js") in
  let names :=
    (fun filename => path.basename filename ".js")
      <$> List.filter (fileType "js") (shelljs.listing (basedir +:+ "rules/") w) in
  (files w !! shelljs.key basedir = Some Dir ->
   files w !! shelljs.key (basedir +:+ "rules/") = Some Dir ->
   (files w !! target <> Some Dir ->
    generateRulesIndex basedir w
    = (Done tt, set_files (insert target (File (rules_index_text names))) w))
   /\ (files w !! target = Some Dir -> generateRulesIndex basedir w = (Exit 1, w)))
  /\ (forall p, p <> target -> files (snd (generateRulesIndex basedir w)) !! p = files w !! p)
  /\ rules_index_text []
     = "module.exports = function() {" +:+ nl +:+ "    var rules = Object.create(null);" +:+ nl
       +:+ nl +:+ "    return rules;" +:+ nl +:+ "};".
Proof.
  intros target names.
  assert (Htext : generateRulesIndex basedir w
                  = shelljs.to (rules_index_text names) (basedir +:+ "load-rules.js") w).
  { unfold generateRulesIndex. cbv zeta. rewrite bind_fileSet.
    rewrite (fold_left_lines
               (fun filename =>
                  "    rules[" +:+ quote +:+ path.basename filename ".js" +:+ quote
                  +:+ "] = require(" +:+ quote +:+ "./rules/" +:+ path.basename filename ".js"
                  +:+ quote +:+ ");" +:+ nl)).
    f_equal. unfold rules_index_text, names. rewrite <- list_fmap_compose.
    repeat (progress (unfold_append; rewrite ?append_assoc)). reflexivity. }
  rewrite Htext. unfold shelljs.to. fold target.
  split; [intros _ _; split | split; [| reflexivity]].
  - intros Hdir. destruct (files w !! target) as [[t|]|]; [reflexivity | contradiction | reflexivity].
  - intros ->. reflexivity.
  - intros p Hp. destruct (files w !! target) as [[t|]|]; cbn [snd]; try reflexivity;
      rewrite files_set_files; now apply lookup_insert_ne.
Qed.

Lemma generateRulesIndex_writes_one_line_per_rule_witness :
  files example_world !! shelljs.key "lib/" = Some Dir
  /\ files example_world !! shelljs.key "lib/rules/" = Some Dir
  /\ files example_world !! "lib/load-rules.js" <> Some Dir
  /\ generateRulesIndex "lib/" example_world
     = (Done tt,
        set_files (insert "lib/load-rules.js"
                     (File ("module.exports = function() {" +:+ nl
                            +:+ "    var rules = Object.create(null);" +:+ nl
                            +:+ "    rules[" +:+ quote +:+ "quotes" +:+ quote +:+ "] = require("
                            +:+ quote +:+ "./rules/quotes" +:+ quote +:+ ");" +:+ nl
                            +:+ "    rules[" +:+ quote +:+ "no-alert" +:+ quote +:+ "] = require("
                            +:+ quote +:+ "./rules/no-alert" +:+ quote +:+ ");" +:+ nl
                            +:+ nl +:+ "    return rules;" +:+ nl +:+ "};")))
          example_world).
Proof.
  assert (Hbase : files example_world !! shelljs.key "lib/" = Some Dir)
    by (vm_compute; reflexivity).
  assert (Hrules : files example_world !! shelljs.key ("lib/" +:+ "rules/") = Some Dir)
    by (vm_compute; reflexivity).
  assert (Hfree : files example_world !! "lib/load-rules.js" <> Some Dir)
    by (vm_compute; discriminate).
  split; [exact Hbase |]. split; [exact Hrules |]. split; [exact Hfree |].
  exact (proj1 (proj1 (generateRulesIndex_writes_one_line_per_rule "lib/" example_world)
                  Hbase Hrules) Hfree).
Defined.

(** ** What a task has done when it returns *)

Lemma post_bind {A B} (Q : world -> Prop) (m : M A) (k : A -> M B) :
  (forall a, post Q (k a)) -> post Q (bind m k).
Proof.
  intros Hk w b w' Hrun. unfold bind in Hrun.
  destruct (m w) as [[a|c|e] w1]; [| discriminate ..].
  exact (Hk a w1 b w' Hrun).
Qed.

Lemma post_run {A} (Q : world -> Prop) (m : M A) (w : world) (a : A) :
  post Q m -> fst (m w) = Done a -> Q (snd (m w)).
Proof.
  intros Hm Hdone. destruct (m w) as [o w'] eqn:Hrun. cbn [fst snd] in *. subst o.
  exact (Hm w a w' Hrun).
Qed.

Lemma rm_r_removes (p : string) :
  post (fun w' => forall q, q = shelljs.key p \/ shelljs.below p q = true ->
                            files w' !! q = None)
       (shelljs.rm_r p).
Proof.
  intros w [] w' Hrun q Hq. unfold shelljs.rm_r in Hrun.
  destruct (files w !! shelljs.key p); [| discriminate].
  injection Hrun as <-. rewrite files_set_files.
  apply map_lookup_filter_None. destruct Hq as [-> | Hbelow].
  - left. apply lookup_delete_eq.
  - right. intros entry _. cbn [fst]. rewrite Hbelow. discriminate.
Qed.

(** X12: when the bundling task returns, nothing of the temporary
    directory is left: neither [tmp] itself nor any path below it. *)
Theorem browserify_leaves_no_temporary_directory (w : world) :
  fst (target_browserify w) = Done tt ->
  forall q, q = "tmp" \/ String.prefix "tmp/" q = true ->
            files (snd (target_browserify w)) !! q = None.
Proof.
  intros Hdone.
  apply (post_run (fun w' => forall q, q = "tmp" \/ String.prefix "tmp/" q = true ->
                                       files w' !! q = None) target_browserify w tt);
    [| exact Hdone].
  unfold target_browserify. repeat (apply post_bind; intros ?).
  exact (rm_r_removes TEMP_DIR).
Qed.

Lemma browserify_leaves_no_temporary_directory_witness :
  fst (target_browserify example_world) = Done tt
  /\ files (snd (target_browserify example_world)) !! "tmp" = None
  /\ files (snd (target_browserify example_world)) !! "tmp/eslint.js" = None
  /\ files (snd (target_browserify example_world)) !! "tmp/rules/quotes.js" = None.
Proof.
  assert (Hdone : fst (target_browserify example_world) = Done tt) by (vm_compute; reflexivity).
  split; [exact Hdone |].
  pose proof (browserify_leaves_no_temporary_directory example_world Hdone) as Hgone.
  exact (conj (Hgone "tmp" (or_introl eq_refl))
           (conj (Hgone "tmp/eslint.js" (or_intror eq_refl))
                 (Hgone "tmp/rules/quotes.js" (or_intror eq_refl)))).
Defined.

(** ** Where a task writes *)

Lemma writes_within_bind {A B} (S : string -> bool) (m : M A) (k : A -> M B) :
  writes_within S m -> (forall a, writes_within S (k a)) -> writes_within S (bind m k).
Proof.
  intros Hm Hk w p Hp. unfold bind. specialize (Hm w p Hp).
  destruct (m w) as [[a|c|e] w1]; cbn [snd] in *; [| exact Hm ..].
  now rewrite Hk.
Qed.

Lemma writes_within_preserves {A} (S : string -> bool) (m : M A) :
  preserves files m -> writes_within S m.
Proof. intros H w p _. now rewrite H. Qed.

Lemma writes_within_if {A} (S : string -> bool) (b : bool) (m1 m2 : M A) :
  writes_within S m1 -> writes_within S m2 -> writes_within S (if b then m1 else m2).
Proof. now destruct b. Qed.

Lemma writes_within_when (S : string -> bool) (b : bool) (m : M unit) :
  writes_within S m -> writes_within S (when b m).
Proof. intros H. destruct b; [exact H | now apply writes_within_preserves]. Qed.

Lemma writes_within_forEach {A} (S : string -> bool) (P : A -> Prop) (l : list A)
    (body : A -> M unit) :
  Forall P l -> (forall x, P x -> writes_within S (body x)) -> writes_within S (forEach l body).
Proof.
  intros Hl H. induction Hl as [|x l Hx _ IH]; cbn [forEach].
  - now apply writes_within_preserves.
  - apply writes_within_bind; [now apply H | intros _; exact IH].
Qed.

Lemma writes_within_to (S : string -> bool) (text p : string) :
  S (shelljs.key p) = true -> writes_within S (shelljs.to text p).
Proof.
  intros HS w q Hq. unfold shelljs.to.
  destruct (files w !! shelljs.key p) as [[t|]|]; cbn [snd]; try reflexivity;
    rewrite files_set_files; apply lookup_insert_ne; congruence.
Qed.

Lemma writes_within_rm (S : string -> bool) (p : string) :
  S (shelljs.key p) = true -> writes_within S (shelljs.rm p).
Proof.
  intros HS w q Hq. unfold shelljs.rm.
  destruct (files w !! shelljs.key p) as [[t|]|]; cbn [snd]; try reflexivity.
  rewrite files_set_files. apply lookup_delete_ne. congruence.
Qed.

Lemma writes_within_mkdir (S : string -> bool) (p : string) :
  S (shelljs.key p) = true -> writes_within S (shelljs.mkdir p).
Proof.
  intros HS w q Hq. unfold shelljs.mkdir.
  destruct (files w !! shelljs.key p) as [n|]; cbn [snd]; try reflexivity.
  rewrite files_set_files. apply lookup_insert_ne. congruence.
Qed.

Lemma writes_within_rm_r (S : string -> bool) (p : string) :
  S (shelljs.key p) = true ->
  (forall q, shelljs.below p q = true -> S q = true) ->
  writes_within S (shelljs.rm_r p).
Proof.
  intros HS Hbelow w q Hq. unfold shelljs.rm_r.
  destruct (files w !! shelljs.key p) as [n|]; cbn [snd]; try reflexivity.
  rewrite files_set_files, map_lookup_filter.
  rewrite lookup_delete_ne by congruence.
  destruct (files w !! q) as [x|]; cbn; [| reflexivity].
  destruct (shelljs.below p q) eqn:Hb.
  - apply Hbelow in Hb. congruence.
  - case_guard; [reflexivity |]. exfalso. unfold shelljs.below in Hb.
    rewrite Hb in *. now cbn in *.
Qed.

Lemma copy_entries_elsewhere (S : string -> bool) (force : bool) (src dst : string)
    (entries : list (string * node)) (fs : gmap string node) (q : string) :
  (forall x, S (shelljs.key dst +:+ x) = true) ->
  S q = false ->
  fold_left (shelljs.copy_entry force src dst) entries fs !! q = fs !! q.
Proof.
  intros HS Hq. revert fs. induction entries as [|kv entries IH]; intros fs; [reflexivity |].
  cbn [fold_left]. rewrite IH. unfold shelljs.copy_entry.
  assert (Hne : shelljs.key dst +:+ JS.skip (String.length (shelljs.key src)) kv.1 <> q)
    by (intros <-; rewrite HS in Hq; discriminate).
  destruct (fs !! _), force; try reflexivity; now apply lookup_insert_ne.
Qed.

Lemma writes_within_cp_r (S : string -> bool) (force : bool) (src dst : string) :
  (forall x, S (shelljs.key dst +:+ x) = true) ->
  writes_within S (shelljs.cp_r force src dst).
Proof.
  intros HS w q Hq. unfold shelljs.cp_r.
  destruct (files w !! shelljs.key dst) as [[t|]|]; cbn [snd]; try reflexivity.
  rewrite files_set_files. now apply (copy_entries_elsewhere S).
Qed.

Lemma prefix_append (a x : string) : String.prefix a (a +:+ x) = true.
Proof. apply prefix_spec. now exists x. Qed.

Lemma prefix_shorter (a b q : string) :
  String.prefix (a +:+ b) q = true -> String.prefix a q = true.
Proof.
  rewrite !prefix_spec. intros [post ->]. exists (b +:+ post). apply append_assoc.
Qed.

(** The steps of a task that writes; what is left are the places where it
    writes. *)
Ltac writes_step :=
  lazymatch goal with
  | |- writes_within _ (bind _ _) => apply writes_within_bind; [| intros ?]
  | |- writes_within _ (when _ _) => apply writes_within_when
  | |- writes_within _ (if _ then _ else _) => apply writes_within_if
  | |- writes_within _ (shelljs.to _ _) => apply writes_within_to
  | |- writes_within _ (shelljs.rm _) => apply writes_within_rm
  | |- writes_within _ (shelljs.mkdir _) => apply writes_within_mkdir
  | |- writes_within _ (shelljs.rm_r _) => apply writes_within_rm_r
  | |- writes_within _ (shelljs.cp_r _ _ _) => apply writes_within_cp_r
  | |- writes_within _ (ret _) => apply writes_within_preserves, preserves_ret
  | |- writes_within _ (shelljs.test _ _) => apply writes_within_preserves; keeps
  | |- writes_within _ (shelljs.cat _) => apply writes_within_preserves; keeps
  | |- writes_within _ (fileSet _ _) => apply writes_within_preserves; keeps
  | |- writes_within _ (dateformat _) => apply writes_within_preserves; keeps
  | |- writes_within _ shelljs.pwd => apply writes_within_preserves; keeps
  | |- writes_within _ (shelljs.cd _) => apply writes_within_preserves; now intros ?
  | |- writes_within _ (shelljs.echo _ _) => apply writes_within_preserves; keeps
  | |- writes_within _ (shelljs.exec _) => apply writes_within_preserves; keeps
  | |- writes_within _ (nodeCLI.exec _ _) => apply writes_within_preserves; keeps
  end.

(** X13: the bundling task itself writes in the temporary directory and
    creates the build directory, and nothing else: every path that starts
    neither with [tmp] nor with [build] is as it was, however the run
    ends.  In particular the task does not touch the sources below
    [lib/], of which it works on a copy. *)
Theorem browserify_writes_in_tmp_and_build (w : world) (p : string) :
  in_tmp_or_build p = false ->
  files (snd (target_browserify w)) !! p = files w !! p.
Proof.
  revert w p. change (writes_within in_tmp_or_build target_browserify).
  unfold target_browserify, generateRulesIndex. repeat writes_step;
    try reflexivity.
  - intros x. unfold in_tmp_or_build. change (shelljs.key TEMP_DIR) with "tmp".
    now rewrite prefix_append.
  - intros q Hq. unfold in_tmp_or_build.
    change (shelljs.below TEMP_DIR q) with (String.prefix ("tmp" +:+ "/") q) in Hq.
    now rewrite (prefix_shorter _ _ _ Hq).
Qed.

Lemma browserify_writes_in_tmp_and_build_witness :
  files (snd (target_browserify example_world)) !! "lib/load-rules.js" = Some (File "l")
  /\ files (snd (target_browserify example_world)) !! "lib/rules/quotes.js" = Some (File "r2").
Proof.
  split.
  - exact (browserify_writes_in_tmp_and_build example_world "lib/load-rules.js" eq_refl).
  - exact (browserify_writes_in_tmp_and_build example_world "lib/rules/quotes.js" eq_refl).
Defined.

(** ** The site *)

(** X14: when the site task returns, the working directory is the one it
    started in. *)
Theorem gensite_restores_working_directory (w : world) :
  fst (target_gensite w) = Done tt ->
  cwd (snd (target_gensite w)) = cwd w.
Proof.
  unfold target_gensite. rewrite bind_echo. unfold shelljs.pwd. rewrite bind_read.
  change (cwd (emit [Echo "Generating eslint.org" []] w)) with (cwd w).
  apply (post_run (fun w' => cwd w' = cwd w)).
  repeat (apply post_bind; intros ?).
  intros w0 [] w' Hrun. injection Hrun as <-. reflexivity.
Qed.

Lemma gensite_restores_working_directory_witness :
  fst (target_gensite example_world) = Done tt
  /\ cwd (snd (target_gensite example_world)) = "/home/eslint".
Proof.
  assert (Hdone : fst (target_gensite example_world) = Done tt) by (vm_compute; reflexivity).
  split; [exact Hdone |].
  exact (gensite_restores_working_directory example_world Hdone).
Defined.

(** X15: the rewriting of the links leaves the front matter alone: every
    page written by the site task starts with the front matter, as it is,
    followed by the rewritten text of the page. *)
Theorem gensite_page_starts_with_front_matter (text : string) :
  JS.replace "README.html" "index.html" (JS.replace_md_links (site_header +:+ text))
  = site_header +:+ JS.replace "README.html" "index.html" (JS.replace_md_links text).
Proof. vm_compute. reflexivity. Qed.

Lemma strip_slashes_append (a b : string) :
  shelljs.strip_slashes (a +:+ b)
  = match shelljs.strip_slashes b with
    | EmptyString => shelljs.strip_slashes a
    | String _ _ => a +:+ shelljs.strip_slashes b
    end.
Proof.
  induction a as [|c a IH]; unfold_append.
  - now destruct (shelljs.strip_slashes b).
  - cbn [shelljs.strip_slashes]. rewrite IH.
    destruct (shelljs.strip_slashes b) as [|c' r]; [reflexivity |].
    unfold_append. now destruct a.
Qed.

Lemma replace_past (r : ascii) (pat by_ pre s : string) :
  has_char r pre = false ->
  JS.replace (String r pat) by_ (pre +:+ s) = pre +:+ JS.replace (String r pat) by_ s.
Proof.
  induction pre as [|c pre IH]; unfold_append; cbn [has_char]; [reflexivity |].
  intros H. apply orb_false_iff in H as [Hc Hpre].
  cbn [JS.replace]. rewrite prefix_cons, Hc. cbn [andb]. now rewrite IH.
Qed.

Lemma site_page_path (filename : string) :
  filename = "../eslint.github.io/docs" \/ shelljs.below "../eslint.github.io/docs" filename = true ->
  in_site_docs (shelljs.key (JS.replace "README.md" "index.md" filename)) = true.
Proof.
  intros [-> | Hbelow]; [reflexivity |].
  change (shelljs.below "../eslint.github.io/docs" filename)
    with (String.prefix "../eslint.github.io/docs/" filename) in Hbelow.
  apply prefix_spec in Hbelow as [rest ->].
  rewrite (replace_past "R" "EADME.md" "index.md" "../eslint.github.io/docs/") by reflexivity.
  set (page := JS.replace "README.md" "index.md" rest).
  unfold shelljs.key.
  assert (Hdots : String.prefix "./" ("../eslint.github.io/docs/" +:+ page) = false).
  { unfold_append. now rewrite !prefix_cons. }
  rewrite Hdots.
  change ("../eslint.github.io/docs/" +:+ page)
    with ("../eslint.github.io/docs" +:+ String "/" page).
  rewrite strip_slashes_append. unfold in_site_docs.
  destruct (shelljs.strip_slashes (String "/" page)); [reflexivity | apply prefix_append].
Qed.

Lemma writes_within_bind_find {B} (S : string -> bool) (d : string) (k : list string -> M B) :
  (forall found, Forall (fun p => p = d \/ shelljs.below d p = true) found ->
                 writes_within S (k found)) ->
  writes_within S (bind (shelljs.find d) k).
Proof.
  intros H w p Hp. change (bind (shelljs.find d) k w) with (k (shelljs.listing d w) w).
  apply H; [| exact Hp]. unfold shelljs.listing. constructor; [now left |].
  apply Forall_forall. intros q Hq. apply list_elem_of_In, filter_In in Hq as [_ Hq]. now right.
Qed.

(** X16: the site task writes below [../eslint.github.io/docs] and nowhere
    else: every path that does not start with it is as it was, however the
    run ends.  In particular the documentation of the project itself is
    left as it is. *)
Theorem gensite_writes_in_site_docs (w : world) (p : string) :
  in_site_docs p = false ->
  files (snd (target_gensite w)) !! p = files w !! p.
Proof.
  revert w p. change (writes_within in_site_docs target_gensite).
  unfold target_gensite.
  repeat lazymatch goal with
         | |- writes_within _ (bind (shelljs.find _) _) =>
             apply writes_within_bind_find; intros found Hfound
         | |- writes_within _ (forEach _ _) =>
             apply (writes_within_forEach _ _ _ _ Hfound); intros filename Hfilename
         | |- _ => writes_step
         end;
    try reflexivity.
  - intros q Hq.
    change (shelljs.below "../eslint.github.io/docs" q)
      with (String.prefix ("../eslint.github.io/docs" +:+ "/") q) in Hq.
    exact (prefix_shorter _ _ _ Hq).
  - intros x. apply prefix_append.
  - now apply site_page_path.
Qed.

Lemma gensite_writes_in_site_docs_witness :
  files (snd (target_gensite example_world)) !! "docs/README.md"
  = Some (File "see [rules](rules/README.md)")
  /\ files (snd (target_gensite example_world)) !! "../eslint.github.io/docs/index.md"
     = Some (File (site_header +:+ "see [rules](rules/index.html)")).
Proof.
  split.
  - exact (gensite_writes_in_site_docs example_world "docs/README.md" eq_refl).
  - vm_compute. reflexivity.
Defined.

(** ** The release, stage by stage *)

Ltac allowed_before_push :=
  first [ apply line_before_push; exact I
        | apply run_before_push; vm_compute; reflexivity ].

Lemma changelog_before_push : only_emits before_push target_changelog.
Proof. unfold target_changelog. emits_by allowed_before_push. Qed.

Lemma gensite_emits : only_emits (fun _ => True) target_gensite.
Proof. unfold target_gensite. emits_by ltac:(exact I). Qed.

Lemma not_in_before_push (evs : list event) :
  Forall before_push evs ->
  ~ In (Run "git push origin master --tags") evs /\ ~ In (Run "npm publish") evs.
Proof.
  intros H. rewrite Forall_forall in H.
  split; intros Hin; apply list_elem_of_In, H in Hin; destruct Hin; congruence.
Qed.

(** X17: there is no rollback.  When validation and the version bump have
    gone through and the changelog stage fails, the release ends there:
    three stages were entered, the command that bumps the version has been
    run and stays run, and neither the push of the tags nor the
    publication is started. *)
Theorem release_stops_at_failed_changelog (G : settings) (type : string) (w w1 : world) :
  target_test G w = (Done tt, w1) ->
  fst (shell w1 ("npm version " +:+ type)) = 0%Z ->
  failed (fst (target_changelog (emit [Run ("npm version " +:+ type)] w1))) = true ->
  failed (fst (release G type w)) = true
  /\ fst (run_steps (release_steps G type) w) = [ValidateAndTest; BumpVersion; UpdateChangelog]
  /\ In (Run ("npm version " +:+ type)) (events_since w (snd (release G type w)))
  /\ ~ In (Run "git push origin master --tags") (events_since w (snd (release G type w)))
  /\ ~ In (Run "npm publish") (events_since w (snd (release G type w))).
Proof.
  intros Htest Hbump Hfail.
  set (w2 := emit [Run ("npm version " +:+ type)] w1) in *.
  assert (Hsteps : run_steps (release_steps G type) w
                   = ([ValidateAndTest; BumpVersion; UpdateChangelog], target_changelog w2)).
  { unfold release_steps. cbn [run_steps]. rewrite Htest. cbn [fst snd].
    rewrite bind_exec_ok by exact Hbump. rewrite ret_run. cbn [fst snd]. fold w2.
    destruct (target_changelog w2) as [[[]|c|e] w3]; [discriminate Hfail | reflexivity ..]. }
  assert (Hrelease : release G type w = target_changelog w2)
    by (now rewrite release_as_steps, Hsteps).
  rewrite Hrelease, Hsteps. split; [exact Hfail |]. split; [reflexivity |].
  destruct (test_before_push G w) as (evsT & HoutT & HevsT).
  rewrite Htest in HoutT. cbn [snd] in HoutT.
  destruct (changelog_before_push w2) as (evsC & HoutC & HevsC).
  assert (Hevents : events_since w (snd (target_changelog w2))
                    = evsT ++ Run ("npm version " +:+ type) :: evsC).
  { unfold events_since. rewrite HoutC. subst w2. cbn [out emit]. rewrite HoutT.
    rewrite <- !app_assoc. now rewrite drop_app_length. }
  rewrite Hevents. split; [apply in_elt |].
  apply not_in_before_push, Forall_app. split; [exact HevsT |].
  constructor; [| exact HevsC].
  apply run_before_push; vm_compute; reflexivity.
Qed.

Lemma release_stops_at_failed_changelog_witness :
  failed (fst (release example_settings "patch" no_changelog_world)) = true
  /\ fst (run_steps (release_steps example_settings "patch") no_changelog_world)
     = [ValidateAndTest; BumpVersion; UpdateChangelog]
  /\ In (Run ("npm version " +:+ "patch"))
        (events_since no_changelog_world (snd (release example_settings "patch" no_changelog_world)))
  /\ ~ In (Run "git push origin master --tags")
          (events_since no_changelog_world (snd (release example_settings "patch" no_changelog_world)))
  /\ ~ In (Run "npm publish")
          (events_since no_changelog_world (snd (release example_settings "patch" no_changelog_world))).
Proof.
  assert (Htest : target_test example_settings no_changelog_world
                  = (Done tt, snd (target_test example_settings no_changelog_world)))
    by (vm_compute; reflexivity).
  assert (Hbump : fst (shell (snd (target_test example_settings no_changelog_world))
                         ("npm version " +:+ "patch")) = 0%Z)
    by (vm_compute; reflexivity).
  assert (Hfail : failed (fst (target_changelog
                                 (emit [Run ("npm version " +:+ "patch")]
                                    (snd (target_test example_settings no_changelog_world)))))
                  = true)
    by (vm_compute; reflexivity).
  exact (release_stops_at_failed_changelog example_settings "patch" no_changelog_world
           (snd (target_test example_settings no_changelog_world)) Htest Hbump Hfail).
Defined.

Lemma release_tail_emits :
  only_emits (fun _ => True) (shelljs.exec "npm publish" ;; target_gensite).
Proof.
  apply only_emits_bind; [now apply only_emits_exec | intros _; apply gensite_emits].
Qed.

Lemma only_after_bind {A B} (early late : event) (m : M A) (k : A -> M B) :
  only_emits (fun e => e <> late) m ->
  (forall a, only_after early late (k a)) ->
  only_after early late (bind m k).
Proof.
  intros Hm Hk w. destruct (Hm w) as (evs & Hout & Hevs).
  assert (Hclean : ~ In late evs).
  { intros Hin. rewrite Forall_forall in Hevs. now apply list_elem_of_In, Hevs in Hin. }
  unfold bind. destruct (m w) as [[a|c|e] w1]; cbn [snd] in *.
  2,3: exists evs; split; [exact Hout | intros Hin; contradiction].
  destruct (Hk a w1) as (evs' & Hout' & Hafter).
  exists (evs ++ evs'). split; [now rewrite Hout', Hout, app_assoc |].
  intros Hin. apply in_app_or in Hin as [Hin | Hin]; [contradiction |].
  destruct (Hafter Hin) as (before & after & -> & Hbefore & Hlate).
  exists (evs ++ before), after. split; [now rewrite app_assoc |]. split; [| exact Hlate].
  intros H. apply in_app_or in H as [H | H]; contradiction.
Qed.

Lemma only_after_start {B} (cmd : string) (late : event) (k : string -> M B) :
  late <> Run cmd ->
  (forall a, only_emits (fun _ => True) (k a)) ->
  only_after (Run cmd) late (bind (shelljs.exec cmd) k).
Proof.
  intros Hne Hk w. unfold bind. rewrite exec_run.
  destruct (fst (shell w cmd) =? 0)%Z.
  - destruct (Hk (snd (shell w cmd)) (emit [Run cmd] w)) as (evs & Hout & _).
    exists (Run cmd :: evs). split.
    + rewrite Hout. cbn [out emit]. now rewrite <- app_assoc.
    + intros [Hin | Hin]; [congruence |]. exists [], evs. auto.
  - exists [Run cmd]. split; [reflexivity |]. intros [Hin | []]. congruence.
Qed.

Lemma before_push_not_publish (e : event) : before_push e -> e <> Run "npm publish".
Proof. now intros [_ H]. Qed.

(** X18: the package is never published before the tags are pushed: in
    every run of [release], whatever fails, a start of [npm publish] comes
    after a start of [git push origin master --tags]. *)
Theorem release_publishes_after_push (G : settings) (type : string) (w : world) :
  In (Run "npm publish") (events_since w (snd (release G type w))) ->
  exists before after,
    events_since w (snd (release G type w))
    = before ++ Run "git push origin master --tags" :: after
    /\ ~ In (Run "npm publish") before
    /\ In (Run "npm publish") after.
Proof.
  assert (Horder : only_after (Run "git push origin master --tags") (Run "npm publish")
                     (release G type)).
  { unfold release.
    apply only_after_bind;
      [apply (only_emits_weaken before_push);
         [apply before_push_not_publish | apply test_before_push] |].
    intros _. apply only_after_bind.
    { apply only_emits_exec. apply before_push_not_publish, run_before_push;
        vm_compute; reflexivity. }
    intros _. apply only_after_bind;
      [apply (only_emits_weaken before_push);
         [apply before_push_not_publish | apply changelog_before_push] |].
    intros _. apply only_after_start; [discriminate |].
    intros _. apply release_tail_emits. }
  destruct (Horder w) as (evs & Hout & Hafter).
  unfold events_since. rewrite Hout, drop_app_length. exact Hafter.
Qed.

Lemma release_publishes_after_push_witness :
  exists before after,
    events_since example_world (snd (release example_settings "minor" example_world))
    = before ++ Run "git push origin master --tags" :: after
    /\ ~ In (Run "npm publish") before
    /\ In (Run "npm publish") after.
Proof.
  apply (release_publishes_after_push example_settings "minor" example_world).
  vm_compute. repeat (first [left; reflexivity | right]).
Defined.
